(** * ckanext-versioned-datastore: field cache and multisearch actions

    A shallow embedding of

    - [ckanext/versioned_datastore/lib/utils.py] (module [Utils]): the
      process-wide [field_cache] and [get_fields];
    - [ckanext/versioned_datastore/logic/actions/multisearch.py] (module
      [Multisearch]): [datastore_multisearch], [datastore_resolve_slug] and
      [datastore_guess_fields].

    Python exceptions are values of [exn]; a function that may raise runs in
    the state-and-exception monad [M].  The search backend (elasticsearch,
    reached through eevee's [Searcher] and elasticsearch-dsl) is an explicit
    record of functions, and every call made to it is appended to a log, so
    that statements about which queries were issued can be written down. *)

From Stdlib Require Import ZArith Lia.
From Stdlib Require String Ascii.
From stdpp Require Import gmap strings list fin_maps sorting.

Local Open Scope Z_scope.

(** ** Python values and exceptions *)

(** JSON-like Python values: what elasticsearch returns and what the actions
    put in their response dicts. *)
#[warnings="-register-all"] Inductive json : Type :=
| JNull
| JBool (b : bool)
| JInt (z : Z)
| JStr (s : string)
| JList (l : list json)
| JObj (kvs : gmap string json).

Inductive exn : Type :=
| ValidationError (message : string)                (* ckan.plugins.toolkit.ValidationError *)
| JsonSchemaValidationError (message : string)      (* jsonschema.ValidationError *)
| InvalidQuerySchemaVersionError (message : string)
| KeyError (key : string)
| ValueError (message : string)
| IndexError
| TypeError
| AttributeError (name : string)
| StopIteration
| TransportError (info : string).                   (* elasticsearch.TransportError *)

Inductive result (A : Type) : Type :=
| Ok (a : A)
| Raise (e : exn).
Arguments Ok {A} a.
Arguments Raise {A} e.

(** [d[k]] on a dict. *)
Definition dict_getitem {V : Type} (d : gmap string V) (k : string) : result V :=
  match d !! k with
  | Some v => Ok v
  | None => Raise (KeyError k)
  end.

(** [j[k]] on a JSON value. *)
Definition getitem (j : json) (k : string) : result json :=
  match j with
  | JObj d => dict_getitem d k
  | _ => Raise TypeError
  end.

(** [j[k1][k2]...] *)
Fixpoint getpath (j : json) (path : list string) : result json :=
  match path with
  | [] => Ok j
  | k :: rest =>
      match getitem j k with
      | Ok j' => getpath j' rest
      | Raise e => Raise e
      end
  end.

(** ** State and exceptions *)

Section Monad.
Context {St : Type}.

Definition M (A : Type) : Type := St -> result A * St.

Definition ret {A} (a : A) : M A := fun s => (Ok a, s).

Definition bind {A B} (c : M A) (k : A -> M B) : M B :=
  fun s =>
    match c s with
    | (Ok a, s') => k a s'
    | (Raise e, s') => (Raise e, s')
    end.

Definition raise {A} (e : exn) : M A := fun s => (Raise e, s).

Definition lift {A} (r : result A) : M A := fun s => (r, s).

Definition gets {A} (f : St -> A) : M A := fun s => (Ok (f s), s).

Definition modify (f : St -> St) : M unit := fun s => (Ok tt, f s).
End Monad.
Arguments M St A : clear implicits.

Notation "'let*' x ':=' c 'in' k" := (bind c (fun x => k))
  (at level 10, x pattern, c at level 100, k at level 200).
Notation "c ';;' k" := (bind c (fun _ => k))
  (at level 100, k at level 200, right associativity).

(** ** The search backend as the code sees it *)

Module ES.

(** Filter clauses added with [Search.filter]. [Raw] is a clause built
    elsewhere (the version filter of the multisearch actions). *)
Inductive clause : Type :=
| Exists (field : string)
| Term (field : string) (value : Z)
| Raw (body : json).

Inductive order : Type := asc | desc.

(** One key of [Search.sort]: [{field: order}] or
    [{field: {'order': order, 'unmapped_type': t}}]. *)
Record sort_key : Type := SortKey {
  sort_field : string;
  sort_order : order;
  unmapped_type : option string
}.

(** An elasticsearch-dsl [Search] object, reduced to what the code sets. *)
Record Search : Type := mkSearch {
  query : json;
  filters : list clause;
  sort : list sort_key;
  extra_size : option Z;
  extra_search_after : option (list json);
  index : list string;
  aggs : list (string * string * string)
}.

(** [Search()] *)
Definition new_search : Search :=
  mkSearch JNull [] [] None None [] [].

Definition filter (c : clause) (s : Search) : Search :=
  mkSearch (query s) (filters s ++ [c]) (sort s) (extra_size s)
           (extra_search_after s) (index s) (aggs s).

(** [Search.sort] with new keys forgets the previous keys. *)
Definition set_sort (keys : list sort_key) (s : Search) : Search :=
  mkSearch (query s) (filters s) keys (extra_size s)
           (extra_search_after s) (index s) (aggs s).

(** [Search.extra(size=n)] *)
Definition set_extra_size (n : Z) (s : Search) : Search :=
  mkSearch (query s) (filters s) (sort s) (Some n)
           (extra_search_after s) (index s) (aggs s).

(** [Search.extra(search_after=a)] *)
Definition set_extra_search_after (a : list json) (s : Search) : Search :=
  mkSearch (query s) (filters s) (sort s) (extra_size s)
           (Some a) (index s) (aggs s).

(** [Search.index(names)] adds the names to the indexes searched. *)
Definition add_index (names : list string) (s : Search) : Search :=
  mkSearch (query s) (filters s) (sort s) (extra_size s)
           (extra_search_after s) (index s ++ names) (aggs s).

(** [Search.aggs.bucket(name, kind, field=field)] *)
Definition aggs_bucket (name kind field : string) (s : Search) : Search :=
  mkSearch (query s) (filters s) (sort s) (extra_size s)
           (extra_search_after s) (index s) (aggs s ++ [(name, kind, field)]).

(** A hit: [hit.data.to_dict()], [hit.meta.index], [hit.meta.sort]. *)
Record Hit : Type := mkHit {
  hit_data : json;
  hit_index : string;
  hit_sort : list json
}.

(** A response: [response.hits], [response.hits.total] and the buckets of
    each aggregation, [response.aggs.to_dict()[name]['buckets']], as
    (key, doc_count) pairs. *)
Record Response : Type := mkResponse {
  hits : list Hit;
  hits_total : Z;
  agg_buckets : gmap string (list (string * Z))
}.

(** A [MultiSearch]: the indexes it is bound to and the searches added. *)
Record MultiSearch : Type := mkMultiSearch {
  ms_index : list string;
  ms_searches : list Search
}.

Definition ms_add (s : Search) (ms : MultiSearch) : MultiSearch :=
  mkMultiSearch (ms_index ms) (ms_searches ms ++ [s]).

(** The elasticsearch client: the mapping API answers with a dict keyed by
    index name, the msearch API with a list of responses or a transport
    failure. *)
Record Client : Type := mkClient {
  indices_get_mapping : string -> gmap string json;
  msearch : list string -> list Search -> result (list Response)
}.

(** [MultiSearch.execute()]: elasticsearch-dsl pairs the searches with the
    responses received (a [zip]), so no more responses come back than
    searches were added. *)
Definition execute (client : Client) (ms : MultiSearch) : result (list Response) :=
  match msearch client (ms_index ms) (ms_searches ms) with
  | Ok responses => Ok (take (length (ms_searches ms)) responses)
  | Raise e => Raise e
  end.

End ES.

(** ** lib/utils.py *)

Module Utils.
Import ES.

(** eevee's [Config], of which the code reads the index prefix. *)
Record Config : Type := mkConfig {
  elasticsearch_index_prefix : string
}.

(** eevee's [Searcher]: version rounding answers with a dict from index
    name to rounded version, [None] when the index has no version. *)
Record Searcher : Type := mkSearcher {
  get_rounded_versions : list string -> option Z -> gmap string (option Z);
  elasticsearch : Client
}.

(** A field description in the format reclineJS wants: [{'id': _, 'type': _}]. *)
Record Field : Type := mkField {
  field_id : string;
  field_type : string
}.

(** Calls made to the backend, oldest first. *)
Inductive call : Type :=
| GetRoundedVersions (indexes : list string) (version : option Z)
| GetMapping (index_name : string)
| Execute (ms : MultiSearch).

(** The module-level [field_cache] dict, and the log of backend calls. *)
Record State : Type := mkState {
  field_cache : gmap (string * option Z) (json * list Field);
  calls : list call
}.

Definition log (c : call) : M State unit :=
  modify (fun st => mkState (field_cache st) (calls st ++ [c])).

Definition cache_store (key : string * option Z) (entry : json * list Field)
  : M State unit :=
  modify (fun st => mkState (<[key := entry]> (field_cache st)) (calls st)).

(** Python orders strings by code point. *)
Definition str_le (x y : string) : Prop := String.leb x y = true.

#[global] Instance str_le_dec : RelDecision str_le :=
  fun x y => decide (String.leb x y = true).

(** [sorted(d)] for a dict [d]: its keys in order. The mapping API answers
    with objects all along the path read here. *)
Definition sorted (j : json) : result (list string) :=
  match j with
  | JObj d => Ok (merge_sort str_le ((map_to_list d).*1))
  | _ => Raise TypeError
  end.

(** [l.remove(x)]: drops the first [x], [ValueError] when there is none. *)
Fixpoint list_remove (x : string) (l : list string) : result (list string) :=
  match l with
  | [] => Raise (ValueError "list.remove(x): x not in list")
  | y :: l' =>
      if decide (y = x) then Ok l'
      else match list_remove x l' with
           | Ok r => Ok (y :: r)
           | Raise e => Raise e
           end
  end.

Section WithConfig.
Variable CONFIG : Config.
(** [eevee.indexing.utils.DOC_TYPE] *)
Variable DOC_TYPE : string.

Definition prefix_resource (resource_id : string) : string :=
  elasticsearch_index_prefix CONFIG +:+ resource_id.

Definition prefix_field (field : string) : string :=
  "data." +:+ field.

(** [sorted(mapping['mappings'][DOC_TYPE]['properties']['data']['properties'])]:
    the names of the data fields the mapping declares. *)
Definition data_field_names (mapping : json) : result (list string) :=
  match getpath mapping ["mappings"; DOC_TYPE; "properties"; "data"; "properties"] with
  | Ok properties => sorted properties
  | Raise e => Raise e
  end.

(** The search added for one field: documents that have a value for the
    field at the rounded version; only the count matters, so size 0. *)
Definition field_search (rounded_version : Z) (field : string) : Search :=
  filter (Term "meta.versions" rounded_version)
    (filter (Exists (prefix_field field))
       (set_extra_size 0 new_search)).

(** [for field in field_names: search = search.add(...)] *)
Definition add_field_searches (rounded_version : Z) (field_names : list string)
    (search : MultiSearch) : MultiSearch :=
  fold_left (fun ms field => ms_add (field_search rounded_version field) ms)
            field_names search.

(** [for i, response in enumerate(responses): ...], from index [i] on. *)
Fixpoint collect_fields (field_names : list string) (i : nat)
    (responses : list Response) (fields : list Field) : result (list Field) :=
  match responses with
  | [] => Ok fields
  | response :: rest =>
      if 0 <? hits_total response then
        match field_names !! i with
        | Some name =>
            collect_fields field_names (S i) rest
              (fields ++ [mkField name "string"])
        | None => Raise IndexError
        end
      else collect_fields field_names (S i) rest fields
  end.

Definition get_fields (SEARCHER : Searcher) (resource_id : string)
    (version : option Z) : M State (json * list Field) :=
  let index := prefix_resource resource_id in
  log (GetRoundedVersions [index] version) ;;
  let* rounded_version :=
    lift (dict_getitem (get_rounded_versions SEARCHER [index] version) index) in
  let cache_key := (resource_id, rounded_version) in
  let* cache := gets field_cache in
  match cache !! cache_key with
  | Some cached => ret cached
  | None =>
      let fields := [mkField "_id" "integer"] in
      log (GetMapping index) ;;
      let* mapping :=
        lift (dict_getitem (indices_get_mapping (elasticsearch SEARCHER) index) index) in
      match rounded_version with
      | None => ret (mapping, fields)
      | Some rounded_version =>
          let* field_names := lift (data_field_names mapping) in
          let* field_names := lift (list_remove "_id" field_names) in
          let search :=
            add_field_searches rounded_version field_names
              (mkMultiSearch [index] []) in
          log (Execute search) ;;
          let* responses := lift (execute (elasticsearch SEARCHER) search) in
          let* fields := lift (collect_fields field_names 0 responses fields) in
          cache_store (resource_id, Some rounded_version) (mapping, fields) ;;
          ret (mapping, fields)
      end
  end.

(** *** Notions used to state what [get_fields] does *)

(** The fields [collect_fields] adds: the names whose response counts at
    least one document, in order. *)
Definition kept (field_names : list string) (responses : list Response)
  : list Field :=
  (fun p => mkField p.1 "string")
    <$> base.filter (fun p => 0 < hits_total p.2) (zip field_names responses).

(** The ways a call of [get_fields] can end, with the state it leaves. *)
Inductive outcome (SEARCHER : Searcher) (resource_id : string)
    (version : option Z) (st : State)
  : result (json * list Field) -> State -> Prop :=
| outcome_hit rounded_version cached :
    get_rounded_versions SEARCHER [prefix_resource resource_id] version
      !! prefix_resource resource_id = Some rounded_version ->
    field_cache st !! (resource_id, rounded_version) = Some cached ->
    outcome SEARCHER resource_id version st (Ok cached)
      (mkState (field_cache st)
         (calls st ++ [GetRoundedVersions [prefix_resource resource_id] version]))
| outcome_no_version mapping :
    get_rounded_versions SEARCHER [prefix_resource resource_id] version
      !! prefix_resource resource_id = Some None ->
    field_cache st !! (resource_id, None) = None ->
    indices_get_mapping (elasticsearch SEARCHER) (prefix_resource resource_id)
      !! prefix_resource resource_id = Some mapping ->
    outcome SEARCHER resource_id version st
      (Ok (mapping, [mkField "_id" "integer"]))
      (mkState (field_cache st)
         (calls st ++ [GetRoundedVersions [prefix_resource resource_id] version;
                       GetMapping (prefix_resource resource_id)]))
| outcome_stored rounded_version mapping names names' responses :
    get_rounded_versions SEARCHER [prefix_resource resource_id] version
      !! prefix_resource resource_id = Some (Some rounded_version) ->
    field_cache st !! (resource_id, Some rounded_version) = None ->
    indices_get_mapping (elasticsearch SEARCHER) (prefix_resource resource_id)
      !! prefix_resource resource_id = Some mapping ->
    data_field_names mapping = Ok names ->
    list_remove "_id" names = Ok names' ->
    msearch (elasticsearch SEARCHER) [prefix_resource resource_id]
      (field_search rounded_version <$> names') = Ok responses ->
    outcome SEARCHER resource_id version st
      (Ok (mapping,
           mkField "_id" "integer" :: kept names' (take (length names') responses)))
      (mkState
         (<[(resource_id, Some rounded_version) :=
              (mapping,
               mkField "_id" "integer"
                 :: kept names' (take (length names') responses))]>
            (field_cache st))
         (calls st ++ [GetRoundedVersions [prefix_resource resource_id] version;
                       GetMapping (prefix_resource resource_id);
                       Execute (mkMultiSearch [prefix_resource resource_id]
                                  (field_search rounded_version <$> names'))]))
| outcome_raised e st' :
    field_cache st' = field_cache st ->
    outcome SEARCHER resource_id version st (Raise e) st'.

(** States the process can be in: the cache starts empty and only
    [get_fields] touches it, against whatever the backend holds at the time
    of each call. *)
Inductive reachable : State -> Prop :=
| reachable_start calls0 : reachable (mkState ∅ calls0)
| reachable_call SEARCHER resource_id version st r st' :
    reachable st ->
    get_fields SEARCHER resource_id version st = (r, st') ->
    reachable st'.

(** [later st st']: [st'] is [st] after any number of calls of [get_fields]. *)
Inductive later (st : State) : State -> Prop :=
| later_now : later st st
| later_call SEARCHER resource_id version st1 r st2 :
    later st st1 ->
    get_fields SEARCHER resource_id version st1 = (r, st2) ->
    later st st2.

(** What every cached field list looks like: the identity field, then
    string fields with other names. *)
Definition fields_ok (fields : list Field) : Prop :=
  exists rest,
    fields = mkField "_id" "integer" :: rest /\
    Forall (fun f => field_type f = "string" /\ field_id f <> "_id") rest.

Definition cache_ok (cache : gmap (string * option Z) (json * list Field)) : Prop :=
  forall key entry,
    cache !! key = Some entry -> key.2 <> None /\ fields_ok entry.2.

(** Two readings that the code does not bear out. *)

(** "Two calls whose versions resolve to the same rounded version return
    identical results", with [None] counted among the rounded versions. *)
Definition same_rounded_version_same_result : Prop :=
  forall SEARCHER1 SEARCHER2 resource_id version1 version2 rounded_version
         st r1 st1 r2 st2,
    reachable st ->
    get_rounded_versions SEARCHER1 [prefix_resource resource_id] version1
      !! prefix_resource resource_id = Some rounded_version ->
    get_rounded_versions SEARCHER2 [prefix_resource resource_id] version2
      !! prefix_resource resource_id = Some rounded_version ->
    get_fields SEARCHER1 resource_id version1 st = (r1, st1) ->
    get_fields SEARCHER2 resource_id version2 st1 = (r2, st2) ->
    r2 = r1.

(** "One existence sub-query per declared data field", with ['_id'] counted
    among the declared data fields. *)
Definition sub_query_for_every_declared_field : Prop :=
  forall SEARCHER resource_id version st rounded_version mapping names r st',
    get_rounded_versions SEARCHER [prefix_resource resource_id] version
      !! prefix_resource resource_id = Some (Some rounded_version) ->
    field_cache st !! (resource_id, Some rounded_version) = None ->
    indices_get_mapping (elasticsearch SEARCHER) (prefix_resource resource_id)
      !! prefix_resource resource_id = Some mapping ->
    data_field_names mapping = Ok names ->
    get_fields SEARCHER resource_id version st = (r, st') ->
    forall field, field ∈ names ->
      exists search, Execute search ∈ calls st' /\
        field_search rounded_version field ∈ ms_searches search.

End WithConfig.

End Utils.


(** ** What a sort specification means to the backend *)

Module SortOrder.
Import ES.

(** The value a document has for a sort field: a number (dates are
    timestamps, ids are integers) or a keyword. *)
Inductive sort_value : Type :=
| SNum (z : Z)
| SStr (s : string).

(** A document, as far as sorting sees it: its value for each field, [None]
    where it has none (for an unmapped field as well, given an
    [unmapped_type]). *)
Definition doc : Type := string -> option sort_value.

Definition value_compare (x y : sort_value) : comparison :=
  match x, y with
  | SNum a, SNum b => Z.compare a b
  | SStr a, SStr b => String.compare a b
  | SNum _, SStr _ => Lt
  | SStr _, SNum _ => Gt
  end.

(** elasticsearch puts documents without a value last, whatever the order. *)
Definition key_compare (k : sort_key) (a b : doc) : comparison :=
  match a (sort_field k), b (sort_field k) with
  | Some x, Some y =>
      match sort_order k with
      | asc => value_compare x y
      | desc => value_compare y x
      end
  | Some _, None => Lt
  | None, Some _ => Gt
  | None, None => Eq
  end.

(** Keys are compared in turn, a later key only breaking the ties left by
    the earlier ones. [Lt]: [a] is listed before [b]. *)
Fixpoint sort_compare (keys : list sort_key) (a b : doc) : comparison :=
  match keys with
  | [] => Eq
  | k :: rest =>
      match key_compare k a b with
      | Eq => sort_compare rest a b
      | c => c
      end
  end.

Definition before (keys : list sort_key) (a b : doc) : Prop :=
  sort_compare keys a b = Lt.

End SortOrder.

(** ** logic/actions/multisearch.py *)

Module Multisearch.

(** A registered [IVersionedDatastore] plugin, with the two hooks called
    here; [Fields] is the type of the object [get_all_fields] builds. *)
Record Plugin (Response Fields : Type) : Type := mkPlugin {
  datastore_multisearch_modify_response : Response -> Response;
  datastore_modify_guess_fields : list string -> Fields -> Fields
}.
Arguments mkPlugin {Response Fields} _ _.
Arguments datastore_multisearch_modify_response {Response Fields} _ _.
Arguments datastore_modify_guess_fields {Response Fields} _ _ _.

(** One entry of the response's ['records'] list. *)
Record ResultRecord : Type := mkResultRecord {
  data : json;
  resource : string
}.

(** The response dict of [datastore_multisearch]; a key that may be missing
    is an option. *)
Record Response : Type := mkResponse {
  total : Z;
  after : option (list json);
  records : list ResultRecord;
  skipped_resources : list string;
  top_resources : option (list (string * Z));
  timings : option json
}.

Definition set_top_resources (v : list (string * Z)) (r : Response) : Response :=
  mkResponse (total r) (after r) (records r) (skipped_resources r) (Some v) (timings r).

Definition set_timings (v : json) (r : Response) : Response :=
  mkResponse (total r) (after r) (records r) (skipped_resources r) (top_resources r) (Some v).

(** Calls that hand a search to the backend, oldest first. *)
Inductive call : Type :=
| Execute (ms : ES.MultiSearch)
| FindSearchedResources (search : ES.Search) (resource_ids : list string)
| GetSingleResourceFields (resource_id : string) (up_to_version : Z)
    (search : ES.Search) (size : Z)
| SelectFields (search : ES.Search) (size : Z).

(** The [Timer] of the running action (the names of its events), the calls
    made to the backend and the query log. *)
Record State : Type := mkState {
  timer : list string;
  calls : list call;
  query_log : list (json * string)
}.

(** [Timer()] *)
Definition new_timer : M State unit :=
  modify (fun st => mkState [] (calls st) (query_log st)).

(** [timer.add_event(name)] *)
Definition add_event (name : string) : M State unit :=
  modify (fun st => mkState (timer st ++ [name]) (calls st) (query_log st)).

Definition log (c : call) : M State unit :=
  modify (fun st => mkState (timer st) (calls st ++ [c]) (query_log st)).

(** [log_query(query, kind)] *)
Definition log_query (q : json) (kind : string) : M State unit :=
  modify (fun st => mkState (timer st) (calls st) (query_log st ++ [(q, kind)])).

(** [except (jsonschema.ValidationError, InvalidQuerySchemaVersionError) as e:
    raise toolkit.ValidationError(e.message)] *)
Definition as_validation_error {A} (r : result A) : result A :=
  match r with
  | Raise (JsonSchemaValidationError message) => Raise (ValidationError message)
  | Raise (InvalidQuerySchemaVersionError message) => Raise (ValidationError message)
  | _ => r
  end.

(** [str.lower()], on ASCII letters; other characters stay as they are. *)
Definition lower_ascii (c : Ascii.ascii) : Ascii.ascii :=
  let n := Ascii.N_of_ascii c in
  if ((65 <=? n) && (n <=? 90))%N then Ascii.ascii_of_N (n + 32) else c.

Fixpoint lower (s : string) : string :=
  match s with
  | EmptyString => EmptyString
  | String c rest => String (lower_ascii c) (lower rest)
  end.

(** The sort every multisearch uses: modified date, record id and index
    name, all descending. Not all indexes have a modified field, hence the
    [unmapped_type]. *)
Definition default_sort : list ES.sort_key :=
  [ ES.SortKey "data.modified" ES.desc (Some "date");
    ES.SortKey "data._id" ES.desc None;
    ES.SortKey "_index" ES.desc None ].

(** Modelled from the spec: [lib.query.utils.calculate_after] is not among
    the sources. The pagination protocol of the spec: [size + 1] records are
    requested; if [size + 1] are returned, the extra record is dropped and the
    cursor is built from the last returned record's sort-key tuple; otherwise
    no more pages exist and the cursor is null. The spec does not say what
    the cursor is when no record is returned at all (size 0 with one hit);
    reading the last item of an empty list is an [IndexError]. *)
Definition calculate_after (response : ES.Response) (size : Z)
  : result (list ES.Hit * option (list json))%type :=
  if Z.of_nat (length (ES.hits response)) =? size + 1 then
    let hits := take (Z.to_nat size) (ES.hits response) in
    match last hits with
    | Some hit => Ok (hits, Some (ES.hit_sort hit))
    | None => Raise IndexError
    end
  else Ok (ES.hits response, None).

(** The attributes of a stored slug read by [datastore_resolve_slug]. *)
Record Slug (datetime : Type) : Type := mkSlug {
  query : json;
  query_version : json;
  version : json;
  resource_ids : json;
  resource_ids_and_versions : json;
  created : datetime
}.
Arguments mkSlug {datetime} _ _ _ _ _ _.
Arguments query {datetime} _.
Arguments query_version {datetime} _.
Arguments version {datetime} _.
Arguments resource_ids {datetime} _.
Arguments resource_ids_and_versions {datetime} _.
Arguments created {datetime} _.

(** [getattr(slug, k)] *)
Definition slug_getattr {datetime} (slug : Slug datetime) (k : string) : result json :=
  if decide (k = "query") then Ok (query slug)
  else if decide (k = "query_version") then Ok (query_version slug)
  else if decide (k = "version") then Ok (version slug)
  else if decide (k = "resource_ids") then Ok (resource_ids slug)
  else if decide (k = "resource_ids_and_versions") then Ok (resource_ids_and_versions slug)
  else Raise (AttributeError k).

(** [{k: getattr(slug, k) for k in keys}] *)
Fixpoint slug_attributes {datetime} (slug : Slug datetime) (keys : list string)
  : result (gmap string json) :=
  match keys with
  | [] => Ok ∅
  | k :: rest =>
      match slug_getattr slug k with
      | Ok v =>
          match slug_attributes slug rest with
          | Ok d => Ok (<[k := v]> d)
          | Raise e => Raise e
          end
      | Raise e => Raise e
      end
  end.

(** [next(iter(l))] *)
Definition next_iter {A} (l : list A) : result A :=
  match l with
  | x :: _ => Ok x
  | [] => Raise StopIteration
  end.

(** A [try] block whose two schema exceptions are turned into validation
    errors; what the block did to the state stays done. *)
Definition try_validation {A} (block : M State A) : M State A :=
  fun st => let '(r, st') := block st in (as_validation_error r, st').

Section Actions.
(** The CKAN context dict, the field collection of [lib.query.fields], what
    the two field selectors return, and [datetime]: all passed on untouched. *)
Variables Context Fields Guess datetime : Type.

(** What the actions call and do not define: the helpers of [lib.query] and
    [lib.datastore_utils], the elasticsearch client, the plugin registry and
    the clock. *)
Record Env : Type := mkEnv {
  get_latest_query_version : string;
  validate_query : json -> string -> result unit;
  translate_query : json -> string -> result ES.Search;
  determine_resources_to_search :
    Context -> option (list string) -> option (gmap string Z)
    -> list string * list string;
  determine_version_filter :
    option Z -> list string -> option (gmap string Z) -> ES.clause;
  find_searched_resources : ES.Search -> list string -> list string;
  prefix_resource : string -> string;
  trim_index_name : string -> string;
  get_all_fields : list string -> Fields;
  fields_ignore : Fields -> string -> Fields;
  get_single_resource_fields : Fields -> string -> Z -> ES.Search -> Z -> Guess;
  select_fields : Fields -> ES.Search -> Z -> Guess;
  resolve_slug : string -> option (Slug datetime);
  isoformat : datetime -> string;
  ES_CLIENT : ES.Client;
  plugins : list (Plugin Response Fields);
  now : Z;
  timer_to_dict : list string -> json
}.

Variable env : Env.

(** [for plugin in PluginImplementations(IVersionedDatastore):
    response = plugin.datastore_multisearch_modify_response(response)] *)
Definition modify_response (response : Response) : Response :=
  fold_left (fun response plugin =>
               datastore_multisearch_modify_response plugin response)
            (plugins env) response.

Definition datastore_multisearch (context : Context) (query : option json)
    (query_version : option string) (version : option Z)
    (resource_ids : option (list string))
    (resource_ids_and_versions : option (gmap string Z)) (size : Z)
    (after : option (list json)) (top_resources timings : bool)
  : M State Response :=
  (* provide some more complex defaults for some parameters if necessary *)
  let query := default (JObj ∅) query in
  let query_version := default (get_latest_query_version env) query_version in
  let size := Z.max 0 (Z.min size 1000) in
  new_timer ;;
  let* search :=
    try_validation
      (lift (validate_query env query query_version) ;;
       add_event "validate" ;;
       let* search := lift (translate_query env query query_version) in
       add_event "translate" ;;
       ret search) in
  (* figure out which resources we're searching *)
  let '(resource_ids, skipped_resource_ids) :=
    determine_resources_to_search env context resource_ids resource_ids_and_versions in
  add_event "determine_resources" ;;
  match resource_ids with
  | [] => raise (ValidationError "The requested resources aren't accessible to this user")
  | _ =>
      let version_filter :=
        determine_version_filter env version resource_ids resource_ids_and_versions in
      let search := ES.filter version_filter search in
      add_event "version_filter" ;;
      let search := ES.set_sort default_sort search in
      let search :=
        match after with
        | Some a => ES.set_extra_search_after a search
        | None => search
        end in
      (* the requested size + 1, to tell whether this is the last page *)
      let search := ES.set_extra_size (size + 1) search in
      let search := ES.add_index (prefix_resource env <$> resource_ids) search in
      let search :=
        if top_resources then ES.aggs_bucket "indexes" "terms" "_index" search
        else search in
      let multisearch := ES.ms_add search (ES.mkMultiSearch [] []) in
      add_event "search_params" ;;
      log (Execute multisearch) ;;
      let* responses := lift (ES.execute (ES_CLIENT env) multisearch) in
      let* result := lift (next_iter responses) in
      add_event "run" ;;
      let* (hits, next_after) := lift (calculate_after result size) in
      let response :=
        mkResponse (ES.hits_total result) next_after
          ((fun hit => mkResultRecord (ES.hit_data hit)
                         (trim_index_name env (ES.hit_index hit))) <$> hits)
          skipped_resource_ids None None in
      let* response :=
        if top_resources then
          let* buckets := lift (dict_getitem (ES.agg_buckets result) "indexes") in
          ret (set_top_resources
                 ((fun bucket => (trim_index_name env bucket.1, bucket.2)) <$> buckets)
                 response)
        else ret response in
      add_event "response" ;;
      (* allow plugins to modify the response *)
      let response := modify_response response in
      add_event "response_modifiers" ;;
      log_query query "multisearch" ;;
      add_event "log" ;;
      if timings then
        let* events := gets timer in
        ret (set_timings (timer_to_dict env events) response)
      else ret response
  end.

Definition datastore_resolve_slug (slug : string) : result (gmap string json) :=
  match resolve_slug env slug with
  | None => Raise (ValidationError "Slug not found")
  | Some found_slug =>
      match slug_attributes found_slug
              ["query"; "query_version"; "version"; "resource_ids";
               "resource_ids_and_versions"] with
      | Ok result =>
          Ok (<["created" := JStr (isoformat env (created found_slug))]> result)
      | Raise e => Raise e
      end
  end.

Definition datastore_guess_fields (context : Context) (query : option json)
    (query_version : option string) (version : option Z)
    (resource_ids : option (list string))
    (resource_ids_and_versions : option (gmap string Z)) (size : Z)
    (ignore_groups : option (list string))
  : M State Guess :=
  let query := default (JObj ∅) query in
  let query_version := default (get_latest_query_version env) query_version in
  let ignore_groups : gset string :=
    match ignore_groups with
    | Some groups => list_to_set (lower <$> groups)
    | None => ∅
    end in
  let* search :=
    try_validation
      (lift (validate_query env query query_version) ;;
       lift (translate_query env query query_version)) in
  (* figure out which resources we're searching *)
  let '(resource_ids, skipped_resource_ids) :=
    determine_resources_to_search env context resource_ids resource_ids_and_versions in
  match resource_ids with
  | [] => raise (ValidationError "The requested resources aren't accessible to this user")
  | _ =>
      let version := default (now env) version in
      let version_filter :=
        determine_version_filter env (Some version) resource_ids
          resource_ids_and_versions in
      let search := ES.filter version_filter search in
      (* we don't want any records back *)
      let search := ES.set_extra_size 0 search in
      log (FindSearchedResources search resource_ids) ;;
      let resource_ids := find_searched_resources env search resource_ids in
      let all_fields := get_all_fields env resource_ids in
      let all_fields := fold_left (fields_ignore env) (elements ignore_groups) all_fields in
      (* allow plugins to modify the fields object *)
      let all_fields :=
        fold_left (fun all_fields plugin =>
                     datastore_modify_guess_fields plugin resource_ids all_fields)
                  (plugins env) all_fields in
      match resource_ids with
      | [resource_id] =>
          let* up_to_version :=
            match resource_ids_and_versions with
            | None => ret version
            | Some versions => lift (dict_getitem versions resource_id)
            end in
          log (GetSingleResourceFields resource_id up_to_version search size) ;;
          ret (get_single_resource_fields env all_fields resource_id up_to_version
                 search size)
      | _ =>
          let size := Z.max 0 (Z.min size 25) in
          log (SelectFields search size) ;;
          ret (select_fields env all_fields search size)
      end
  end.

(** *** Notions used to state what the actions do *)

(** The size the actions work with, for a requested size and a bound. *)
Definition clamp (bound size : Z) : Z := Z.max 0 (Z.min size bound).

(** The search [datastore_multisearch] hands to the backend, given the
    translated query and the resources to search. *)
Definition search_sent (search : ES.Search) (resource_ids : list string)
    (version : option Z) (resource_ids_and_versions : option (gmap string Z))
    (size : Z) (after : option (list json)) (top_resources : bool) : ES.Search :=
  let search :=
    ES.filter (determine_version_filter env version resource_ids
                 resource_ids_and_versions) search in
  let search := ES.set_sort default_sort search in
  let search :=
    match after with
    | Some a => ES.set_extra_search_after a search
    | None => search
    end in
  let search := ES.set_extra_size (clamp 1000 size + 1) search in
  let search := ES.add_index (prefix_resource env <$> resource_ids) search in
  if top_resources then ES.aggs_bucket "indexes" "terms" "_index" search else search.

(** The records of a response, from the hits kept. *)
Definition records_of (hits : list ES.Hit) : list ResultRecord :=
  (fun hit => mkResultRecord (ES.hit_data hit) (trim_index_name env (ES.hit_index hit)))
    <$> hits.

(** What is done to the assembled response before it is returned: the
    plugins, then the timings if asked for. *)
Definition finish (timings : bool) (events : list string) (response : Response)
  : Response :=
  if timings then set_timings (timer_to_dict env events) (modify_response response)
  else modify_response response.

(** The search the field guessing works with. *)
Definition guess_search (search : ES.Search) (resource_ids : list string)
    (version : option Z) (resource_ids_and_versions : option (gmap string Z))
  : ES.Search :=
  ES.set_extra_size 0
    (ES.filter (determine_version_filter env (Some (default (now env) version))
                  resource_ids resource_ids_and_versions) search).

(** The field collection handed to the selectors. *)
Definition guess_fields_of (resource_ids : list string)
    (ignore_groups : option (list string)) : Fields :=
  fold_left (fun all_fields plugin =>
               datastore_modify_guess_fields plugin resource_ids all_fields)
    (plugins env)
    (fold_left (fields_ignore env)
       (elements (match ignore_groups with
                  | Some groups => list_to_set (lower <$> groups)
                  | None => ∅
                  end : gset string))
       (get_all_fields env resource_ids)).

(** A reading that the code does not bear out: "if the backend returns
    [N + 1] hits, the extra hit is dropped and a cursor built from the last
    returned record is emitted", with 0 counted among the page sizes. *)
Definition cursor_for_every_size : Prop :=
  forall context query query_version version resource_ids
         resource_ids_and_versions size after top_resources timings st
         search allowed skipped result others,
    validate_query env (default (JObj ∅) query)
      (default (get_latest_query_version env) query_version) = Ok tt ->
    translate_query env (default (JObj ∅) query)
      (default (get_latest_query_version env) query_version) = Ok search ->
    determine_resources_to_search env context resource_ids resource_ids_and_versions
      = (allowed, skipped) ->
    allowed <> [] ->
    let N := clamp 1000 size in
    let sent :=
      search_sent search allowed version resource_ids_and_versions size after
        top_resources in
    let run :=
      datastore_multisearch context query query_version version resource_ids
        resource_ids_and_versions size after top_resources timings st in
    ES.msearch (ES_CLIENT env) [] [sent] = Ok (result :: others) ->
    (top_resources = true -> is_Some (ES.agg_buckets result !! "indexes")) ->
    Z.of_nat (length (ES.hits result)) = N + 1 ->
    exists assembled last_hit,
      run.1 = Ok (finish timings (timer run.2) assembled) /\
      records assembled = records_of (take (Z.to_nat N) (ES.hits result)) /\
      last (take (Z.to_nat N) (ES.hits result)) = Some last_hit /\
      Multisearch.after assembled = Some (ES.hit_sort last_hit).

End Actions.

Arguments get_latest_query_version {_ _ _ _} _.
Arguments validate_query {_ _ _ _} _.
Arguments translate_query {_ _ _ _} _.
Arguments determine_resources_to_search {_ _ _ _} _.
Arguments determine_version_filter {_ _ _ _} _.
Arguments find_searched_resources {_ _ _ _} _.
Arguments prefix_resource {_ _ _ _} _.
Arguments trim_index_name {_ _ _ _} _.
Arguments get_all_fields {_ _ _ _} _.
Arguments fields_ignore {_ _ _ _} _.
Arguments get_single_resource_fields {_ _ _ _} _.
Arguments select_fields {_ _ _ _} _.
Arguments resolve_slug {_ _ _ _} _.
Arguments isoformat {_ _ _ _} _.
Arguments ES_CLIENT {_ _ _ _} _.
Arguments plugins {_ _ _ _} _.
Arguments now {_ _ _ _} _.
Arguments timer_to_dict {_ _ _ _} _.
Arguments modify_response {_ _ _ _} _.
Arguments datastore_multisearch {_ _ _ _} _.
Arguments datastore_resolve_slug {_ _ _ _} _.
Arguments datastore_guess_fields {_ _ _ _} _.
Arguments search_sent {_ _ _ _} _.
Arguments records_of {_ _ _ _} _.
Arguments finish {_ _ _ _} _.
Arguments guess_search {_ _ _ _} _.
Arguments guess_fields_of {_ _ _ _} _.
Arguments cursor_for_every_size {_ _ _ _} _.

(** Errors a caller can correct, as opposed to failures of the backend. *)
Definition user_correctable (e : exn) : bool :=
  match e with
  | ValidationError _ => true
  | _ => false
  end.

Definition backend_failure (e : exn) : bool :=
  match e with
  | TransportError _ => true
  | _ => false
  end.

End Multisearch.

(** ** Sample data, for the worked instances below *)

Module Samples.
Import ES.

Definition obj (items : list (string * json)) : json := JObj (list_to_map items).

Definition config : Utils.Config := Utils.mkConfig "nhm-".

(** The mapping of an index whose documents have the given data fields. *)
Definition mapping_of (fields : list string) : json :=
  obj [("mappings",
        obj [("_doc",
              obj [("properties",
                    obj [("data",
                          obj [("properties",
                                obj ((fun f => (f, obj [("type", JStr "keyword")]))
                                       <$> fields))])])])])].

Definition specimen_mapping : json := mapping_of ["name"; "_id"; "age"].

(** Only [data.name] has documents. *)
Definition counts_name (s : Search) : Z :=
  match filters s with
  | Exists "data.name" :: _ => 3
  | _ => 0
  end.

(** A backend where every index has the given rounded version and mapping. *)
Definition searcher (rounded_version : option Z) (mapping : json) : Utils.Searcher :=
  Utils.mkSearcher
    (fun indexes _ => list_to_map ((fun i => (i, rounded_version)) <$> indexes))
    (mkClient (fun i => {[ i := mapping ]})
              (fun _ searches =>
                 Ok ((fun s => mkResponse [] (counts_name s) ∅) <$> searches))).

Definition specimen_fields : list Utils.Field :=
  [Utils.mkField "_id" "integer"; Utils.mkField "name" "string"].

Definition start : Utils.State := Utils.mkState ∅ [].

(** The state after [get_fields('r1')] on [searcher (Some 5) specimen_mapping]. *)
Definition after_first_call : Utils.State :=
  Utils.mkState
    {[ ("r1", Some 5) := (specimen_mapping, specimen_fields) ]}
    [Utils.GetRoundedVersions ["nhm-r1"] None;
     Utils.GetMapping "nhm-r1";
     Utils.Execute
       (mkMultiSearch ["nhm-r1"]
          [Utils.field_search 5 "age"; Utils.field_search 5 "name"])].

(** A hit of record [id] in index [index_name], modified at time 1000. *)
Definition hit (id : Z) (index_name : string) : Hit :=
  mkHit (obj [("_id", JInt id)]) index_name [JInt 1000; JInt id; JStr index_name].

Definition three_hits : list Hit :=
  [hit 9 "nhm-r1"; hit 7 "nhm-r2"; hit 4 "nhm-r1"].

Definition stored_slug : Multisearch.Slug Z :=
  Multisearch.mkSlug (obj []) (JStr "v1.0.0") (JInt 1000)
    (JList [JStr "r1"; JStr "r2"]) JNull 1561982400.

(** A backend that answers every search with the given hits, and one that
    cannot be reached. *)
Definition answering (found : list Hit) : Client :=
  mkClient (fun _ => ∅)
    (fun _ searches => Ok ((fun _ => mkResponse found 40 ∅) <$> searches)).

Definition out_of_reach : Client :=
  mkClient (fun _ => ∅) (fun _ _ => Raise (TransportError "ConnectionTimeout")).

(** Collaborators for the actions: every query is valid, the resources
    asked for are all accessible ([r1] and [r2] when none is named), and the
    field selectors answer with the version and size they were given. *)
Definition env_on (client : Client) : Multisearch.Env unit unit (Z * Z) Z :=
  Multisearch.mkEnv unit unit (Z * Z) Z
    "v1.0.0"
    (fun _ _ => Ok tt)
    (fun _ _ => Ok new_search)
    (fun _ resource_ids _ => (default ["r1"; "r2"] resource_ids, []))
    (fun _ _ _ => Raw JNull)
    (fun _ resource_ids => resource_ids)
    (fun resource_id => "nhm-" +:+ resource_id)
    (fun index_name => String.substring 4 (String.length index_name - 4) index_name)
    (fun _ => tt)
    (fun fields _ => fields)
    (fun _ _ up_to_version _ size => (up_to_version, size))
    (fun _ _ size => (0, size))
    (fun slug => if decide (slug = "calm-grey-heron") then Some stored_slug else None)
    (fun _ => "2019-07-01T12:00:00")
    client
    []
    1561982400
    (fun events => JList (JStr <$> events)).

Definition env (found : list Hit) : Multisearch.Env unit unit (Z * Z) Z :=
  env_on (answering found).

(** What sorting sees of a document. *)
Definition doc_of (modified : option Z) (id : Z) (index_name : string)
  : SortOrder.doc :=
  fun field =>
    if decide (field = "data.modified") then SortOrder.SNum <$> modified
    else if decide (field = "data._id") then Some (SortOrder.SNum id)
    else if decide (field = "_index") then Some (SortOrder.SStr index_name)
    else None.

Definition idle : Multisearch.State := Multisearch.mkState [] [] [].

End Samples.

(** ** lib/utils.py: ingestible resources, privacy, facets *)

Module Resources.

Definition DATASTORE_ONLY_RESOURCE : string := "_datastore_only_resource".
Definition CSV_FORMATS : list string := ["csv"; "application/csv"].
Definition TSV_FORMATS : list string := ["tsv"].
Definition XLS_FORMATS : list string := ["xls"; "application/vnd.ms-excel"].
Definition XLSX_FORMATS : list string :=
  ["xlsx"; "application/vnd.openxmlformats-officedocument.spreadsheetml.sheet"].
Definition ALL_FORMATS : list string :=
  CSV_FORMATS ++ TSV_FORMATS ++ XLS_FORMATS ++ XLSX_FORMATS.

(** The url is compared with three strings; a value that is no string
    equals none of them. *)
Definition is_datastore_only_resource (resource_url : json) : bool :=
  match resource_url with
  | JStr url =>
      bool_decide (url = DATASTORE_ONLY_RESOURCE)
      || bool_decide (url = "http://" +:+ DATASTORE_ONLY_RESOURCE)
      || bool_decide (url = "https://" +:+ DATASTORE_ONLY_RESOURCE)
  | _ => false
  end.

(** [resource] is the resource dict. The format is read with [.get], the
    url with [resource['url']]; the format is only looked at when the url is
    not a datastore only one ([or] stops at the first true operand). *)
Definition is_ingestible (resource : gmap string json) : result bool :=
  let resource_format := default JNull (resource !! "format") in
  match dict_getitem resource "url" with
  | Raise e => Raise e
  | Ok url =>
      if is_datastore_only_resource url then Ok true
      else
        match resource_format with
        | JNull => Ok false
        | JStr format => Ok (bool_decide (Multisearch.lower format ∈ ALL_FORMATS))
        | _ => Raise (AttributeError "lower")
        end
  end.

(** The part of the elasticsearch cluster the privacy functions read and
    write: the names of the indexes, the (index, alias) pairs, and the
    requests that changed something, oldest first. *)
Inductive write : Type :=
| DeleteAlias (index_name alias_name : string)
| UpdateAliasesAdd (index_name alias_name : string).

Record Cluster : Type := mkCluster {
  indices : gset string;
  aliases : gset (string * string);
  writes : list write
}.

(** [indices.exists(index_name)] *)
Definition indices_exists (index_name : string) : M Cluster bool :=
  gets (fun c => bool_decide (index_name ∈ indices c)).

(** [indices.exists_alias(index_name, alias_name)] *)
Definition indices_exists_alias (index_name alias_name : string) : M Cluster bool :=
  gets (fun c => bool_decide ((index_name, alias_name) ∈ aliases c)).

(** [indices.delete_alias(index_name, alias_name)] *)
Definition indices_delete_alias (index_name alias_name : string) : M Cluster unit :=
  modify (fun c =>
            mkCluster (indices c) (aliases c ∖ {[ (index_name, alias_name) ]})
              (writes c ++ [DeleteAlias index_name alias_name])).

(** [indices.update_aliases({'actions': [{'add': {'index': i, 'alias': a}}]})] *)
Definition indices_update_aliases_add (index_name alias_name : string)
  : M Cluster unit :=
  modify (fun c =>
            mkCluster (indices c) (aliases c ∪ {[ (index_name, alias_name) ]})
              (writes c ++ [UpdateAliasesAdd index_name alias_name])).

(** [for x in l: body(x)] *)
Fixpoint for_each {St A} (l : list A) (body : A -> M St unit) : M St unit :=
  match l with
  | [] => ret tt
  | x :: rest => body x ;; for_each rest body
  end.

(** The CKAN model objects, as far as they are read. *)
Record Resource : Type := mkResource { id : string }.
Record ResourceGroup : Type := mkResourceGroup { resources_all : list Resource }.
Record Package : Type := mkPackage {
  private : bool;
  resource_groups_all : list ResourceGroup
}.

Section WithConfig.
Variable CONFIG : Utils.Config.
(** [model.Resource.get(resource_id).resource_group.package.private], [None]
    when there is no such resource. *)
Variable package_private : string -> option bool.

Definition get_public_alias_prefix : string := "pub".

Definition get_public_alias_name (resource_id : string) : string :=
  get_public_alias_prefix +:+ Utils.prefix_resource CONFIG resource_id.

Definition make_private (resource_id : string) : M Cluster unit :=
  let index_name := Utils.prefix_resource CONFIG resource_id in
  let public_index_name := get_public_alias_name resource_id in
  let* there := indices_exists index_name in
  if there : bool then
    let* aliased := indices_exists_alias index_name public_index_name in
    if aliased : bool then indices_delete_alias index_name public_index_name
    else ret tt
  else ret tt.

Definition make_public (resource_id : string) : M Cluster unit :=
  let index_name := Utils.prefix_resource CONFIG resource_id in
  let public_index_name := get_public_alias_name resource_id in
  let* there := indices_exists index_name in
  if there : bool then
    let* aliased := indices_exists_alias index_name public_index_name in
    if negb aliased then indices_update_aliases_add index_name public_index_name
    else ret tt
  else ret tt.

Definition update_privacy (resource_id : string) (is_private : option bool)
  : M Cluster unit :=
  let* is_private :=
    match is_private with
    | Some b => ret b
    | None =>
        match package_private resource_id with
        | Some b => ret b
        | None => raise (AttributeError "resource_group")
        end
    end in
  if is_private : bool then make_private resource_id else make_public resource_id.

Definition update_resources_privacy (package : Package) : M Cluster unit :=
  for_each (resource_groups_all package) (fun resource_group =>
    for_each (resources_all resource_group) (fun resource =>
      update_privacy (id resource) (Some (private package)))).

End WithConfig.

(** One terms aggregation as elasticsearch returns it. A bucket key is a
    string or a number. *)
Inductive bucket_key : Type :=
| KStr (s : string)
| KNum (z : Z).

#[global] Instance bucket_key_eq_dec : EqDecision bucket_key.
Proof. solve_decision. Defined.

#[global] Instance bucket_key_countable : Countable bucket_key :=
  inj_countable'
    (fun k => match k with KStr s => inl s | KNum z => inr z end)
    (fun x => match x with inl s => KStr s | inr z => KNum z end)
    (fun k => match k with KStr _ => eq_refl | KNum _ => eq_refl end).

Record Bucket : Type := mkBucket {
  key : bucket_key;
  doc_count : Z
}.

Record Aggregation : Type := mkAggregation {
  sum_other_doc_count : Z;
  doc_count_error_upper_bound : Z;
  buckets : list Bucket
}.

(** One entry of the formatted facets: [{'details': {...}, 'values': {...}}]. *)
Record Details : Type := mkDetails {
  details_sum_other_doc_count : Z;
  details_doc_count_error_upper_bound : Z
}.

Record Facet : Type := mkFacet {
  details : Details;
  values : gmap bucket_key Z
}.

(** [{b['key']: b['doc_count'] for b in buckets}]: a later bucket replaces an
    earlier one with the same key. *)
Definition bucket_values (buckets : list Bucket) : gmap bucket_key Z :=
  fold_left (fun d b => <[key b := doc_count b]> d) buckets ∅.

(** The loop gives every facet of [aggs] its entry. *)
Definition format_facets (aggs : gmap string Aggregation) : gmap string Facet :=
  (fun agg =>
     mkFacet (mkDetails (sum_other_doc_count agg) (doc_count_error_upper_bound agg))
             (bucket_values (buckets agg)))
    <$> aggs.

End Resources.

(** ** The privacy functions, with requests that can fail *)

Module Requests.
Import Resources.

(** In [Resources] the cluster answers every request. A request of the
    elasticsearch client can also raise: when the transport fails or the
    server refuses, whatever the request is, and with a "not found" (a
    [TransportError] of status 404) when the alias to delete is not there or
    the index to put an alias on does not exist. [failures] holds what the
    requests to come meet for reasons outside the cluster, the next request
    first: [None] for a request that gets its answer, as every request past
    the end of the list does. *)
Record Server : Type := mkServer {
  cluster : Cluster;
  failures : list (option exn)
}.

Definition request {A} (answer : M Cluster A) : M Server A :=
  fun s =>
    match failures s with
    | Some e :: rest => (Raise e, mkServer (cluster s) rest)
    | _ =>
        let '(r, c) := answer (cluster s) in
        (r, mkServer c (tail (failures s)))
    end.

Definition not_found (what : string) : exn := TransportError ("404 " +:+ what).

(** [indices.exists(index_name)]: a missing index is the answer [False]. *)
Definition indices_exists (index_name : string) : M Server bool :=
  request (Resources.indices_exists index_name).

(** [indices.exists_alias(index_name, alias_name)] *)
Definition indices_exists_alias (index_name alias_name : string) : M Server bool :=
  request (Resources.indices_exists_alias index_name alias_name).

(** [indices.delete_alias(index_name, alias_name)] *)
Definition indices_delete_alias (index_name alias_name : string) : M Server unit :=
  request (fun c =>
             if bool_decide ((index_name, alias_name) ∈ aliases c)
             then Resources.indices_delete_alias index_name alias_name c
             else (Raise (not_found "aliases_not_found_exception"), c)).

(** [indices.update_aliases({'actions': [{'add': {'index': i, 'alias': a}}]})] *)
Definition indices_update_aliases_add (index_name alias_name : string)
  : M Server unit :=
  request (fun c =>
             if bool_decide (index_name ∈ indices c)
             then Resources.indices_update_aliases_add index_name alias_name c
             else (Raise (not_found "index_not_found_exception"), c)).

Section WithConfig.
Variable CONFIG : Utils.Config.
Variable package_private : string -> option bool.

Definition make_private (resource_id : string) : M Server unit :=
  let index_name := Utils.prefix_resource CONFIG resource_id in
  let public_index_name := get_public_alias_name CONFIG resource_id in
  let* there := indices_exists index_name in
  if there : bool then
    let* aliased := indices_exists_alias index_name public_index_name in
    if aliased : bool then indices_delete_alias index_name public_index_name
    else ret tt
  else ret tt.

Definition make_public (resource_id : string) : M Server unit :=
  let index_name := Utils.prefix_resource CONFIG resource_id in
  let public_index_name := get_public_alias_name CONFIG resource_id in
  let* there := indices_exists index_name in
  if there : bool then
    let* aliased := indices_exists_alias index_name public_index_name in
    if negb aliased then indices_update_aliases_add index_name public_index_name
    else ret tt
  else ret tt.

Definition update_privacy (resource_id : string) (is_private : option bool)
  : M Server unit :=
  let* is_private :=
    match is_private with
    | Some b => ret b
    | None =>
        match package_private resource_id with
        | Some b => ret b
        | None => raise (AttributeError "resource_group")
        end
    end in
  if is_private : bool then make_private resource_id else make_public resource_id.

Definition update_resources_privacy (package : Package) : M Server unit :=
  for_each (resource_groups_all package) (fun resource_group =>
    for_each (resources_all resource_group) (fun resource =>
      update_privacy (id resource) (Some (private package)))).

End WithConfig.

End Requests.

(** ** logic/actions/multisearch.py: slugs, field names, query hashes *)

Module OtherActions.

(** [text in s] for two strings. *)
Fixpoint contains (text s : string) : bool :=
  String.prefix text s
  || match s with
     | EmptyString => false
     | String _ rest => contains text rest
     end.

(** What is recorded for a field of a resource: [{'type': _, 'fields': _}],
    the second being the types of its sub-fields. *)
Record FieldInfo : Type := mkFieldInfo {
  type : json;
  subfields : gmap string json
}.

(** [{f: c['type'] for f, c in items}] *)
Fixpoint subfield_types (items : list (string * json)) : result (gmap string json) :=
  match items with
  | [] => Ok ∅
  | (f, c) :: rest =>
      match getitem c "type" with
      | Raise e => Raise e
      | Ok t =>
          match subfield_types rest with
          | Raise e => Raise e
          | Ok d => Ok (<[f := t]> d)
          end
      end
  end.

(** [{'type': config['type'],
      'fields': {f: c['type'] for f, c in config.get('fields', {}).items()}}] *)
Definition field_info (config : json) : result FieldInfo :=
  match getitem config "type" with
  | Raise e => Raise e
  | Ok t =>
      match config with
      | JObj d =>
          match default (JObj ∅) (d !! "fields") with
          | JObj sub =>
              match subfield_types (map_to_list sub) with
              | Raise e => Raise e
              | Ok types => Ok (mkFieldInfo t types)
              end
          | _ => Raise (AttributeError "items")
          end
      | _ => Raise (AttributeError "get")
      end
  end.

(** [any(text in (part.lower() if lowercase else part) for part in field_path)] *)
Definition path_matches (text : string) (lowercase : bool) (field_path : list string)
  : bool :=
  existsb (fun part => contains text (if lowercase then Multisearch.lower part else part))
          field_path.

(** The inner loop over the data fields of one mapping; [fields] is the
    [defaultdict(dict)] being filled. The value is built before the entry of
    the field name is looked up. *)
Fixpoint scan_fields (text : string) (lowercase : bool) (resource_id : string)
    (data_fields : list (list string * json))
    (fields : gmap string (gmap string FieldInfo))
  : result (gmap string (gmap string FieldInfo)) :=
  match data_fields with
  | [] => Ok fields
  | (field_path, config) :: rest =>
      if path_matches text lowercase field_path then
        match field_info config with
        | Raise e => Raise e
        | Ok info =>
            let name := String.concat "." field_path in
            scan_fields text lowercase resource_id rest
              (<[name := <[resource_id := info]> (default ∅ (fields !! name))]> fields)
        end
      else scan_fields text lowercase resource_id rest fields
  end.

(** The response of [datastore_create_slug]. *)
Record SlugResponse : Type := mkSlugResponse {
  slug : string;
  is_new : bool
}.

(** The response of [datastore_field_autocomplete]. *)
Record Autocompletion : Type := mkAutocompletion {
  count : nat;
  fields : gmap string (gmap string FieldInfo)
}.

Section Actions.
(** The CKAN context dict and the stored slug objects: passed on untouched. *)
Variables Context Slug : Type.

(** The helpers of [lib.query] and [lib.datastore_utils] these actions call;
    [get_mappings] answers with a dict, here its items in iteration order. *)
Record Helpers : Type := mkHelpers {
  get_latest_query_version : string;
  validate_query : json -> string -> result unit;
  hash_query : json -> string -> string;
  create_slug :
    Context -> json -> string -> option Z -> option (list string)
    -> option (gmap string Z) -> bool -> result (bool * option Slug);
  get_slug_string : Slug -> string;
  get_available_datastore_resources : Context -> option (list string) -> list string;
  get_mappings : list string -> list (string * json);
  unprefix_index : string -> string;
  iter_data_fields : json -> list (list string * json)
}.

Variable helpers : Helpers.

Definition datastore_create_slug (context : Context) (query : option json)
    (query_version : option string) (version : option Z)
    (resource_ids : option (list string))
    (resource_ids_and_versions : option (gmap string Z)) (pretty_slug : bool)
  : result SlugResponse :=
  let query := default (JObj ∅) query in
  let query_version := default (get_latest_query_version helpers) query_version in
  match Multisearch.as_validation_error
          (create_slug helpers context query query_version version resource_ids
             resource_ids_and_versions pretty_slug) with
  | Raise e => Raise e
  | Ok (is_new, None) => Raise (ValidationError "Failed to generate new slug")
  | Ok (is_new, Some slug) =>
      Ok (mkSlugResponse (get_slug_string helpers slug) is_new)
  end.

(** The outer loop over the mappings. *)
Fixpoint scan_mappings (text : string) (lowercase : bool)
    (mappings : list (string * json))
    (fields : gmap string (gmap string FieldInfo))
  : result (gmap string (gmap string FieldInfo)) :=
  match mappings with
  | [] => Ok fields
  | (index, mapping) :: rest =>
      let resource_id := unprefix_index helpers index in
      match scan_fields text lowercase resource_id
              (iter_data_fields helpers mapping) fields with
      | Raise e => Raise e
      | Ok fields => scan_mappings text lowercase rest fields
      end
  end.

Definition datastore_field_autocomplete (context : Context) (text : string)
    (resource_ids : option (list string)) (lowercase : bool)
  : result Autocompletion :=
  (* figure out which resources should be searched *)
  match get_available_datastore_resources helpers context resource_ids with
  | [] => Raise (ValidationError "The requested resources aren't accessible to this user")
  | resource_ids =>
      let mappings := get_mappings helpers resource_ids in
      match scan_mappings text lowercase mappings ∅ with
      | Raise e => Raise e
      | Ok fields => Ok (mkAutocompletion (size fields) fields)
      end
  end.

Definition datastore_hash_query (query : option json) (query_version : option string)
  : result string :=
  let query := default (JObj ∅) query in
  let query_version := default (get_latest_query_version helpers) query_version in
  match Multisearch.as_validation_error (validate_query helpers query query_version) with
  | Raise e => Raise e
  | Ok _ => Ok (hash_query helpers query query_version)
  end.

(** *** Notions used to state what the field search finds *)

(** The (resource, path, config) triples the two loops go through, in order. *)
Definition data_fields_of (mappings : list (string * json))
  : list (string * (list string * json)) :=
  mappings ≫= fun '(index, mapping) =>
    (fun field => (unprefix_index helpers index, field))
      <$> iter_data_fields helpers mapping.

End Actions.

Arguments mkHelpers {_ _} _ _ _ _ _ _ _ _ _.
Arguments get_latest_query_version {_ _} _.
Arguments validate_query {_ _} _.
Arguments hash_query {_ _} _.
Arguments create_slug {_ _} _.
Arguments get_slug_string {_ _} _.
Arguments get_available_datastore_resources {_ _} _.
Arguments get_mappings {_ _} _.
Arguments unprefix_index {_ _} _.
Arguments iter_data_fields {_ _} _.
Arguments datastore_create_slug {_ _} _.
Arguments scan_mappings {_ _} _.
Arguments datastore_field_autocomplete {_ _} _.
Arguments datastore_hash_query {_ _} _.
Arguments data_fields_of {_ _} _.

(** A string of ASCII characters only. On such a string [Multisearch.lower]
    is what [str.lower()] is: the capitals A to Z are the only characters of
    ASCII that have a lower-case form. *)
Fixpoint is_ascii (s : string) : bool :=
  match s with
  | EmptyString => true
  | String c rest => (Ascii.N_of_ascii c <? 128)%N && is_ascii rest
  end.

(** An ASCII capital letter. *)
Definition is_upper (c : Ascii.ascii) : bool :=
  ((65 <=? Ascii.N_of_ascii c) && (Ascii.N_of_ascii c <=? 90))%N.

Fixpoint has_upper (s : string) : bool :=
  match s with
  | EmptyString => false
  | String c rest => is_upper c || has_upper rest
  end.

(** What holds of the fields found so far, given the (resource, path,
    config) triples gone through: an entry is there for every triple whose
    path matches, and every entry comes from such a triple. *)
Definition found_from (text : string) (lowercase : bool)
    (triples : list (string * (list string * json)))
    (fields : gmap string (gmap string FieldInfo)) : Prop :=
  ((forall name per_resource,
      fields !! name = Some per_resource -> exists resource_id, is_Some (per_resource !! resource_id)) /\
   (forall name per_resource resource_id info,
      fields !! name = Some per_resource ->
      per_resource !! resource_id = Some info ->
      exists field_path config,
        (resource_id, (field_path, config)) ∈ triples /\
        path_matches text lowercase field_path = true /\
        String.concat "." field_path = name /\
        field_info config = Ok info) /\
   (forall resource_id field_path config,
      (resource_id, (field_path, config)) ∈ triples ->
      path_matches text lowercase field_path = true ->
      exists per_resource,
        fields !! String.concat "." field_path = Some per_resource /\
        is_Some (per_resource !! resource_id))).

End OtherActions.

(** ** More sample data *)

Module Specimens.
Import ES.

(** Two indexes, of which [r2] is public. *)
Definition cluster : Resources.Cluster :=
  Resources.mkCluster {[ "nhm-r1"; "nhm-r2" ]} {[ ("nhm-r2", "pubnhm-r2") ]} [].

(** A public package with three resources, one of them ([r9]) without index. *)
Definition package : Resources.Package :=
  Resources.mkPackage false
    [Resources.mkResourceGroup [Resources.mkResource "r1"; Resources.mkResource "r2"];
     Resources.mkResourceGroup [Resources.mkResource "r9"]].

Definition no_package : string -> option bool := fun _ => None.

(** The same cluster behind a transport that delivers everything, and
    behind one that delivers a first request and times out on the second. *)
Definition server : Requests.Server := Requests.mkServer cluster [].

Definition flaky_server : Requests.Server :=
  Requests.mkServer cluster [None; Some (TransportError "ConnectionTimeout")].

Definition genus_aggregation : Resources.Aggregation :=
  Resources.mkAggregation 12 0
    [Resources.mkBucket (Resources.KStr "Rosa") 40;
     Resources.mkBucket (Resources.KStr "Quercus") 15;
     Resources.mkBucket (Resources.KNum 7) 2].

(** The collaborators of [Samples.env], with a schema that refuses every
    query. *)
Definition refusing_env : Multisearch.Env unit unit (Z * Z) Z :=
  let e := Samples.env Samples.three_hits in
  Multisearch.mkEnv unit unit (Z * Z) Z
    (Multisearch.get_latest_query_version e)
    (fun _ _ => Raise (JsonSchemaValidationError "'search' is not of type 'object'"))
    (Multisearch.translate_query e)
    (Multisearch.determine_resources_to_search e)
    (Multisearch.determine_version_filter e)
    (Multisearch.find_searched_resources e)
    (Multisearch.prefix_resource e)
    (Multisearch.trim_index_name e)
    (Multisearch.get_all_fields e)
    (Multisearch.fields_ignore e)
    (Multisearch.get_single_resource_fields e)
    (Multisearch.select_fields e)
    (Multisearch.resolve_slug e)
    (Multisearch.isoformat e)
    (Multisearch.ES_CLIENT e)
    (Multisearch.plugins e)
    (Multisearch.now e)
    (Multisearch.timer_to_dict e).

(** A backend that also answers with the buckets of the index aggregation. *)
Definition counting_indexes : Client :=
  mkClient (fun _ => ∅)
    (fun _ searches =>
       Ok ((fun _ =>
              mkResponse Samples.three_hits 40
                {[ "indexes" := [("nhm-r1", 2); ("nhm-r2", 1)] ]})
             <$> searches)).

Definition keyword : json := Samples.obj [("type", JStr "keyword")].

(** Helpers for the other actions: two resources, [r1] with the fields
    [genus] and [location.Country], [r2] with the field [Genus]; slugs are
    their own strings, and creating one always succeeds. *)
Definition helpers : OtherActions.Helpers unit string :=
  OtherActions.mkHelpers
    "v1.0.0"
    (fun _ _ => Ok tt)
    (fun _ version => "digest-" +:+ version)
    (fun _ _ _ _ _ _ _ => Ok (true, Some "calm-grey-heron"))
    (fun slug => slug)
    (fun _ resource_ids => default ["r1"; "r2"] resource_ids)
    (fun resource_ids => (fun r => ("nhm-" +:+ r, JStr r)) <$> resource_ids)
    (fun index => String.substring 4 (String.length index - 4) index)
    (fun mapping =>
       match mapping with
       | JStr "r1" => [(["genus"], keyword); (["location"; "Country"], keyword)]
       | _ => [(["Genus"], keyword)]
       end).

End Specimens.

(** * Properties *)

(** ** The field cache of [get_fields] *)

Module FieldCache.
Import ES Utils.

Section WithConfig.
Variable CONFIG : Config.
Variable DOC_TYPE : string.

Local Abbreviation get_fields := (get_fields CONFIG DOC_TYPE).
Local Abbreviation prefix_resource := (prefix_resource CONFIG).
Local Abbreviation data_field_names := (data_field_names DOC_TYPE).
Local Abbreviation outcome := (outcome CONFIG DOC_TYPE).
Local Abbreviation reachable := (reachable CONFIG DOC_TYPE).
Local Abbreviation later := (later CONFIG DOC_TYPE).

Lemma collect_fields_kept field_names responses :
  forall i fields,
    (length responses + i <= length field_names)%nat ->
    collect_fields field_names i responses fields
    = Ok (fields ++ kept (drop i field_names) responses).
Proof.
  induction responses as [|response rest IH]; intros i fields Hlen.
  - unfold kept. destruct (drop i field_names); simpl; by rewrite app_nil_r.
  - simpl in Hlen.
    destruct (lookup_lt_is_Some_2 field_names i) as [name Hname]; [lia|].
    rewrite (drop_S _ _ _ Hname). simpl. rewrite Hname.
    unfold kept. simpl. rewrite filter_cons. simpl.
    destruct (Z.ltb_spec 0 (hits_total response)) as [Hpos|Hnpos].
    + rewrite decide_True by done. rewrite IH by lia.
      simpl. by rewrite <- app_assoc.
    + rewrite decide_False by lia. by rewrite IH by lia.
Qed.

Lemma add_field_searches_fmap rounded_version field_names ms :
  add_field_searches rounded_version field_names ms
  = mkMultiSearch (ms_index ms)
      (ms_searches ms ++ (field_search rounded_version <$> field_names)).
Proof.
  unfold add_field_searches. revert ms.
  induction field_names as [|f fs IH]; intros ms; simpl.
  - rewrite app_nil_r. by destruct ms.
  - rewrite IH. simpl. by rewrite <- app_assoc.
Qed.

Lemma list_remove_Permutation x l l' :
  list_remove x l = Ok l' -> l ≡ₚ x :: l'.
Proof.
  revert l'. induction l as [|y l IH]; intros l' H; simpl in H; [done|].
  destruct (decide (y = x)) as [->|Hne].
  - by inversion H.
  - destruct (list_remove x l) as [r|e]; [|done].
    inversion H; subst. rewrite (IH r eq_refl). apply Permutation_swap.
Qed.

Lemma sorted_NoDup j names : sorted j = Ok names -> NoDup names.
Proof.
  destruct j; simpl; try done. intros [= <-].
  rewrite merge_sort_Permutation. apply NoDup_fst_map_to_list.
Qed.

Lemma data_field_names_NoDup mapping names :
  data_field_names mapping = Ok names -> NoDup names.
Proof.
  unfold Utils.data_field_names.
  destruct (getpath mapping _); [apply sorted_NoDup | done].
Qed.

(** After [field_names.remove('_id')] on the names of a dict, ['_id'] is
    gone and every other name is still there. *)
Lemma removed_id_names mapping names names' :
  data_field_names mapping = Ok names ->
  list_remove "_id" names = Ok names' ->
  NoDup names' /\ ("_id" ∉ names') /\
  (forall f, f ∈ names' <-> (f ∈ names /\ f <> "_id")).
Proof.
  intros Hn Hr. apply data_field_names_NoDup in Hn.
  apply list_remove_Permutation in Hr. rewrite Hr in Hn.
  apply NoDup_cons in Hn as [Hnotin Hnd].
  split_and!; [done..|]. intros f. rewrite Hr, elem_of_cons.
  split.
  - intros Hf. split; [right; done|]. by intros ->.
  - by intros [[?|?] ?].
Qed.

(** [get_fields] ends in one of the four ways of [outcome]. *)
Lemma get_fields_outcome SEARCHER resource_id version st r st' :
  get_fields SEARCHER resource_id version st = (r, st') ->
  outcome SEARCHER resource_id version st r st'.
Proof.
  unfold Utils.get_fields, bind, lift, log, gets, modify, ret, cache_store,
    dict_getitem, execute. simpl.
  destruct (get_rounded_versions SEARCHER _ version !! _)
    as [rounded_version|] eqn:Hrv; simpl;
    [|intros [= <- <-]; by constructor].
  destruct (field_cache st !! (resource_id, rounded_version))
    as [cached|] eqn:Hcache; simpl;
    [intros [= <- <-]; by econstructor|].
  destruct (indices_get_mapping _ _ !! _) as [mapping|] eqn:Hmap; simpl;
    [|intros [= <- <-]; by constructor].
  destruct rounded_version as [rounded_version|]; simpl;
    [|intros [= <- <-]; rewrite <- app_assoc; by apply outcome_no_version].
  destruct (Utils.data_field_names DOC_TYPE mapping) as [names|] eqn:Hnames; simpl;
    [|intros [= <- <-]; by constructor].
  destruct (list_remove "_id" names) as [names'|] eqn:Hrem; simpl;
    [|intros [= <- <-]; by constructor].
  rewrite add_field_searches_fmap. simpl.
  destruct (msearch _ _ _) as [responses|] eqn:Hms; simpl;
    [|intros [= <- <-]; by constructor].
  rewrite length_fmap.
  rewrite collect_fields_kept by (rewrite length_take; simpl; lia).
  simpl. rewrite drop_0, <- !app_assoc. simpl.
  intros [= <- <-]. by eapply outcome_stored.
Qed.

Lemma outcome_preserves_entries SEARCHER resource_id version st r st' :
  outcome SEARCHER resource_id version st r st' ->
  forall key entry,
    field_cache st !! key = Some entry -> field_cache st' !! key = Some entry.
Proof.
  intros [rv cached Hrv Hc|mapping Hrv Hc Hm
         |rv mapping names names' responses Hrv Hc Hm Hn Hr Hms
         |e st'' Hsame] key entry Hkey; simpl; try done.
  - rewrite lookup_insert_ne; [done|]. intros <-. congruence.
  - by rewrite Hsame.
Qed.

Lemma later_preserves_entries st st' :
  later st st' ->
  forall key entry,
    field_cache st !! key = Some entry -> field_cache st' !! key = Some entry.
Proof.
  induction 1 as [|S rid v st1 r st2 _ IH Hcall]; intros key entry Hkey; [done|].
  eapply outcome_preserves_entries; [by apply get_fields_outcome|]. by apply IH.
Qed.

Lemma kept_fields_ok names' responses :
  "_id" ∉ names' ->
  fields_ok (mkField "_id" "integer" :: kept names' responses).
Proof.
  intros Hnotin. eexists; split; [done|].
  apply Forall_forall. intros f Hf. unfold kept in Hf.
  apply list_elem_of_fmap in Hf as [[name response] [-> Hin]].
  apply list_elem_of_filter in Hin as [_ Hin]. simpl.
  split; [done|]. intros ->. apply Hnotin.
  apply elem_of_zip_l in Hin. done.
Qed.

Lemma outcome_cache_ok SEARCHER resource_id version st r st' :
  outcome SEARCHER resource_id version st r st' ->
  cache_ok (field_cache st) -> cache_ok (field_cache st').
Proof.
  intros [rv cached Hrv Hc|mapping Hrv Hc Hm
         |rv mapping names names' responses Hrv Hc Hm Hn Hr Hms
         |e st'' Hsame] Hok; simpl; try done.
  - intros key entry. rewrite lookup_insert.
    destruct (decide _) as [<-|Hne]; [|by apply Hok].
    intros [= <-]. simpl. split; [done|].
    apply kept_fields_ok. by destruct (removed_id_names _ _ _ Hn Hr) as (_ & ? & _).
  - by rewrite Hsame.
Qed.

Lemma reachable_cache_ok st : reachable st -> cache_ok (field_cache st).
Proof.
  induction 1 as [calls0|S rid v st r st' _ IH Hcall].
  - intros key entry. simpl. by rewrite lookup_empty.
  - eapply outcome_cache_ok; [by apply get_fields_outcome | done].
Qed.

Lemma get_fields_hit SEARCHER resource_id version st rounded_version cached :
  get_rounded_versions SEARCHER [prefix_resource resource_id] version
    !! prefix_resource resource_id = Some rounded_version ->
  field_cache st !! (resource_id, rounded_version) = Some cached ->
  get_fields SEARCHER resource_id version st
  = (Ok cached,
     mkState (field_cache st)
       (calls st ++ [GetRoundedVersions [prefix_resource resource_id] version])).
Proof.
  intros Hrv Hcache.
  unfold Utils.get_fields, bind, lift, log, gets, modify, ret, dict_getitem.
  simpl. rewrite Hrv. simpl. by rewrite Hcache.
Qed.

Lemma list_remove_elem_of x l :
  x ∈ l -> exists l', list_remove x l = Ok l'.
Proof.
  induction l as [|y l IH]; intros Hin; [by apply elem_of_nil in Hin|].
  simpl. destruct (decide (y = x)) as [->|Hne]; [by eexists|].
  apply elem_of_cons in Hin as [->|Hin]; [done|].
  destruct (IH Hin) as [l' ->]. by eexists.
Qed.

Lemma kept_field_ids names responses f :
  f ∈ field_id <$> kept names responses <->
  exists i response,
    names !! i = Some f /\ responses !! i = Some response /\
    0 < hits_total response.
Proof.
  unfold kept. rewrite <- list_fmap_compose. rewrite list_elem_of_fmap. split.
  - intros [[name response] [-> Hin]]. simpl.
    apply list_elem_of_filter in Hin as [Hpos Hin].
    apply elem_of_lookup_zip_with in Hin as (i & x & y & [= <- <-] & Hx & Hy).
    by exists i, response.
  - intros (i & response & Hn & Hr & Hpos). exists (f, response). split; [done|].
    apply list_elem_of_filter. split; [done|].
    apply elem_of_lookup_zip_with. by exists i, f, response.
Qed.

Lemma get_fields_no_version SEARCHER resource_id version st :
  get_rounded_versions SEARCHER [prefix_resource resource_id] version
    !! prefix_resource resource_id = Some None ->
  field_cache st !! (resource_id, None) = None ->
  get_fields SEARCHER resource_id version st
  = (match indices_get_mapping (elasticsearch SEARCHER)
             (prefix_resource resource_id) !! prefix_resource resource_id with
     | Some mapping => Ok (mapping, [mkField "_id" "integer"])
     | None => Raise (KeyError (prefix_resource resource_id))
     end,
     mkState (field_cache st)
       (calls st ++ [GetRoundedVersions [prefix_resource resource_id] version;
                     GetMapping (prefix_resource resource_id)])).
Proof.
  intros Hrv Hmiss.
  unfold Utils.get_fields, bind, lift, log, gets, modify, ret, dict_getitem.
  simpl. rewrite Hrv. simpl. rewrite Hmiss. simpl. rewrite <- app_assoc.
  by destruct (indices_get_mapping _ _ !! _).
Qed.

Lemma reachable_no_version_key st resource_id :
  reachable st -> field_cache st !! (resource_id, None) = None.
Proof.
  intros Hreach.
  destruct (field_cache st !! (resource_id, None)) as [entry|] eqn:Hc; [|done].
  destruct (reachable_cache_ok st Hreach _ _ Hc) as [Hkey _].
  by simpl in Hkey.
Qed.

Lemma later_reachable st st' : reachable st -> later st st' -> reachable st'.
Proof.
  intros Hreach. induction 1 as [|S rid v st1 r st2 _ IH Hcall]; [done|].
  by eapply reachable_call.
Qed.

(** C3, as amended. The cache is keyed by (resource id, rounded version),
    and no call of [get_fields] overwrites or removes an entry. Hence, when a
    call returns and the rounded version it resolved is a version (not
    [None]), any later call for the same resource whose version resolves to
    the same rounded version returns the very same result; the only backend
    call it makes is the version rounding: no mapping lookup and no existence
    query. Other calls of [get_fields] may come in between, and the backend
    may change between calls. When both calls resolve to [None], nothing is
    cached: the second call sends no existence query either, but it reads the
    mapping again, and its result is that of the first call provided the
    backend still answers with the same mapping. *)
Theorem cached_fields_are_final :
  (forall SEARCHER resource_id version st r st' key entry,
     get_fields SEARCHER resource_id version st = (r, st') ->
     field_cache st !! key = Some entry ->
     field_cache st' !! key = Some entry)
  /\
  (forall SEARCHER1 SEARCHER2 resource_id version1 version2 rounded_version
          st entry st1 st2,
     get_rounded_versions SEARCHER1 [prefix_resource resource_id] version1
       !! prefix_resource resource_id = Some (Some rounded_version) ->
     get_rounded_versions SEARCHER2 [prefix_resource resource_id] version2
       !! prefix_resource resource_id = Some (Some rounded_version) ->
     get_fields SEARCHER1 resource_id version1 st = (Ok entry, st1) ->
     later st1 st2 ->
     field_cache st1 !! (resource_id, Some rounded_version) = Some entry /\
     get_fields SEARCHER2 resource_id version2 st2
     = (Ok entry,
        mkState (field_cache st2)
          (calls st2
             ++ [GetRoundedVersions [prefix_resource resource_id] version2])))
  /\
  (forall SEARCHER1 SEARCHER2 resource_id version1 version2 st r1 st1 st2,
     reachable st ->
     get_rounded_versions SEARCHER1 [prefix_resource resource_id] version1
       !! prefix_resource resource_id = Some None ->
     get_rounded_versions SEARCHER2 [prefix_resource resource_id] version2
       !! prefix_resource resource_id = Some None ->
     get_fields SEARCHER1 resource_id version1 st = (r1, st1) ->
     later st1 st2 ->
     let second := get_fields SEARCHER2 resource_id version2 st2 in
     calls second.2
     = calls st2 ++ [GetRoundedVersions [prefix_resource resource_id] version2;
                     GetMapping (prefix_resource resource_id)] /\
     (indices_get_mapping (elasticsearch SEARCHER1) (prefix_resource resource_id)
        !! prefix_resource resource_id
      = indices_get_mapping (elasticsearch SEARCHER2) (prefix_resource resource_id)
          !! prefix_resource resource_id ->
      second.1 = r1)).
Proof.
  split_and!.
  - intros S rid v st r st' key entry Hcall.
    by apply (outcome_preserves_entries S rid v st r st'), get_fields_outcome.
  - intros S1 S2 rid v1 v2 rv st entry st1 st2 Hrv1 Hrv2 Hcall Hlater.
    assert (field_cache st1 !! (rid, Some rv) = Some entry) as Hcached.
    { apply get_fields_outcome in Hcall.
      inversion Hcall as [rvo cached Hrv Hc|mapping Hrv Hc Hm
         |rv' mapping names names' responses Hrv Hc Hm Hn Hr Hms|]; subst; simpl.
      - rewrite Hrv1 in Hrv. by injection Hrv as <-.
      - rewrite Hrv1 in Hrv. discriminate.
      - rewrite Hrv1 in Hrv. injection Hrv as <-. apply lookup_insert_eq. }
    split; [done|]. apply (get_fields_hit _ _ _ _ (Some rv)); [done|].
    by apply (later_preserves_entries st1).
  - intros S1 S2 rid v1 v2 st r1 st1 st2 Hreach Hrv1 Hrv2 Hcall Hlater second.
    assert (reachable st2) as Hreach2.
    { apply (later_reachable st1); [|done]. by eapply reachable_call. }
    subst second.
    rewrite (get_fields_no_version S2 rid v2 st2 Hrv2)
      by by apply reachable_no_version_key.
    rewrite (get_fields_no_version S1 rid v1 st Hrv1) in Hcall
      by by apply reachable_no_version_key.
    simpl. split; [done|]. intros <-. by injection Hcall as <- _.
Qed.

(** C5. When the rounded version of the resource resolves to [None],
    [get_fields] returns the raw mapping with a field list holding only the
    identity field, and the cache is left as it was. *)
Theorem no_version_nothing_cached SEARCHER resource_id version st mapping :
  reachable st ->
  get_rounded_versions SEARCHER [prefix_resource resource_id] version
    !! prefix_resource resource_id = Some None ->
  indices_get_mapping (elasticsearch SEARCHER) (prefix_resource resource_id)
    !! prefix_resource resource_id = Some mapping ->
  exists st',
    get_fields SEARCHER resource_id version st
    = (Ok (mapping, [mkField "_id" "integer"]), st') /\
    field_cache st' = field_cache st.
Proof.
  intros Hreach Hrv Hmap.
  rewrite (get_fields_no_version SEARCHER resource_id version st Hrv)
    by by apply reachable_no_version_key.
  rewrite Hmap. by eexists.
Qed.

(** C4, as amended. On a miss with a rounded version, [get_fields] sends one
    multi-search holding one existence search, scoped to the rounded version,
    for each declared data field other than ['_id'], in sorted order. A
    declared field other than ['_id'] is in the returned list exactly when
    the response to its search counts at least one document, and every field
    after the leading identity field has type "string". ['_id'] itself gets no
    search and is returned first whatever the backend answers. *)
Theorem existence_checks SEARCHER resource_id version st rounded_version
    mapping names :
  get_rounded_versions SEARCHER [prefix_resource resource_id] version
    !! prefix_resource resource_id = Some (Some rounded_version) ->
  field_cache st !! (resource_id, Some rounded_version) = None ->
  indices_get_mapping (elasticsearch SEARCHER) (prefix_resource resource_id)
    !! prefix_resource resource_id = Some mapping ->
  data_field_names mapping = Ok names ->
  "_id" ∈ names ->
  exists names',
    list_remove "_id" names = Ok names' /\
    (forall f, f ∈ names' <-> (f ∈ names /\ f <> "_id")) /\
    forall responses,
      msearch (elasticsearch SEARCHER) [prefix_resource resource_id]
        (field_search rounded_version <$> names') = Ok responses ->
      exists fields st',
        get_fields SEARCHER resource_id version st
        = (Ok (mapping, mkField "_id" "integer" :: fields), st') /\
        calls st'
        = calls st ++ [GetRoundedVersions [prefix_resource resource_id] version;
                       GetMapping (prefix_resource resource_id);
                       Execute (mkMultiSearch [prefix_resource resource_id]
                                  (field_search rounded_version <$> names'))] /\
        (forall i f,
           names' !! i = Some f ->
           f ∈ field_id <$> fields <->
           exists response,
             responses !! i = Some response /\ 0 < hits_total response) /\
        Forall (fun f => field_type f = "string") fields.
Proof.
  intros Hrv Hmiss Hmap Hnames Hid.
  destruct (list_remove_elem_of _ _ Hid) as [names' Hrem].
  destruct (removed_id_names _ _ _ Hnames Hrem) as (Hnd & Hnotin & Hiff).
  exists names'. split_and!; [done..|]. intros responses Hms.
  eexists _, _. split_and!.
  - unfold Utils.get_fields, bind, lift, log, gets, modify, ret, cache_store,
      dict_getitem, execute. simpl.
    rewrite Hrv. simpl. rewrite Hmiss. simpl. rewrite Hmap. simpl.
    rewrite Hnames. simpl. rewrite Hrem. simpl.
    rewrite add_field_searches_fmap. simpl. rewrite Hms, length_fmap.
    rewrite collect_fields_kept by (rewrite length_take; simpl; lia).
    simpl. by rewrite drop_0.
  - simpl. by rewrite <- !app_assoc.
  - intros i f Hi. rewrite kept_field_ids. split.
    + intros (j & response & Hj & Hresp & Hpos).
      assert (j = i) as -> by by eapply NoDup_lookup.
      exists response. split; [|done].
      apply lookup_take_Some in Hresp. tauto.
    + intros (response & Hresp & Hpos). exists i, response. split_and!; [done| |done].
      apply lookup_take_Some. split; [done|]. by eapply lookup_lt_Some.
  - unfold kept. apply Forall_fmap, Forall_forall. by intros [? ?] _.
Qed.

(** C10. Whenever [get_fields] returns, the field list starts with the
    identity field [{'id': '_id', 'type': 'integer'}]; ['_id'] occurs once
    in the list, every other field has type "string", and no existence search
    sent by the call is about ['_id']. *)
Theorem identity_field_first SEARCHER resource_id version st mapping fields st' :
  reachable st ->
  get_fields SEARCHER resource_id version st = (Ok (mapping, fields), st') ->
  head fields = Some (mkField "_id" "integer") /\
  length (base.filter (fun f => field_id f = "_id") fields) = 1%nat /\
  (forall f, f ∈ fields -> field_type f <> "string" -> f = mkField "_id" "integer") /\
  exists new,
    calls st' = calls st ++ new /\
    forall search s,
      Execute search ∈ new -> s ∈ ms_searches search ->
      Exists (prefix_field "_id") ∉ filters s.
Proof.
  intros Hreach Hcall.
  assert (fields_ok fields) as (rest & -> & Hrest).
  { assert (cache_ok (field_cache st')) as Hok'.
    { apply reachable_cache_ok. by eapply reachable_call. }
    pose proof (reachable_cache_ok st Hreach) as Hok.
    apply get_fields_outcome in Hcall.
    inversion Hcall as [rvo cached Hrv Hc|mapping' Hrv Hc Hm
       |rv mapping' names names' responses Hrv Hc Hm Hn Hr Hms|]; subst.
    - by destruct (Hok _ _ Hc) as [_ ?].
    - eexists. split; [done|]. constructor.
    - apply kept_fields_ok.
      by destruct (removed_id_names _ _ _ Hn Hr) as (_ & ? & _). }
  split_and!.
  - done.
  - rewrite filter_cons. rewrite decide_True by done. simpl. f_equal.
    clear Hcall. induction Hrest as [|f rest' [_ Hf] _ IH]; [done|].
    rewrite filter_cons. rewrite decide_False by exact Hf. exact IH.
  - intros f [->|Hin]%elem_of_cons Htype; [done|].
    rewrite Forall_forall in Hrest. by destruct (Hrest f Hin).
  - apply get_fields_outcome in Hcall.
    inversion Hcall as [rvo cached Hrv Hc|mapping' Hrv Hc Hm
       |rv mapping' names names' responses Hrv Hc Hm Hn Hr Hms|]; subst; simpl.
    + eexists. split; [done|]. intros search s Hex.
      apply list_elem_of_singleton in Hex. discriminate.
    + eexists. split; [done|]. intros search s Hex.
      apply elem_of_cons in Hex as [?|Hex]; [discriminate|].
      apply list_elem_of_singleton in Hex. discriminate.
    + eexists. split; [done|]. intros search s Hex Hs.
      destruct (removed_id_names _ _ _ Hn Hr) as (_ & Hnotin & _).
      apply elem_of_cons in Hex as [?|Hex]; [discriminate|].
      apply elem_of_cons in Hex as [?|Hex]; [discriminate|].
      apply list_elem_of_singleton in Hex. injection Hex as ->. simpl in Hs.
      apply list_elem_of_fmap in Hs as (f & -> & Hf). simpl.
      intros Hin. apply elem_of_cons in Hin as [Heq|Hin].
      * unfold prefix_field in Heq. by simplify_eq/=.
      * apply list_elem_of_singleton in Hin. discriminate.
Qed.

End WithConfig.

(** *** Worked instances *)

Import Samples.

(** The first call stores the fields of [r1] at rounded version 5. A call
    for [r2] leaves that entry alone. Later the backend declares other fields
    and another version of [r1] is asked for, which still rounds to 5: the
    answer is the stored one, after one backend call. And while a resource
    has no version, two calls against the same mapping agree. *)
Lemma cached_fields_are_final_witness :
  field_cache
    (Utils.get_fields config "_doc" (searcher (Some 6) specimen_mapping) "r2"
       None after_first_call).2 !! ("r1", Some 5)
  = Some (specimen_mapping, specimen_fields) /\
  (field_cache after_first_call !! ("r1", Some 5)
     = Some (specimen_mapping, specimen_fields) /\
   Utils.get_fields config "_doc" (searcher (Some 5) (mapping_of ["_id"; "colour"]))
     "r1" (Some 7) after_first_call
   = (Ok (specimen_mapping, specimen_fields),
      mkState (field_cache after_first_call)
        (calls after_first_call ++ [GetRoundedVersions ["nhm-r1"] (Some 7)]))) /\
  (let second :=
     Utils.get_fields config "_doc" (searcher None specimen_mapping) "r1" (Some 7)
       (mkState ∅ [GetRoundedVersions ["nhm-r1"] None; GetMapping "nhm-r1"]) in
   calls second.2
   = [GetRoundedVersions ["nhm-r1"] None; GetMapping "nhm-r1"]
       ++ [GetRoundedVersions ["nhm-r1"] (Some 7); GetMapping "nhm-r1"] /\
   second.1 = Ok (specimen_mapping, [mkField "_id" "integer"])).
Proof.
  destruct (cached_fields_are_final config "_doc") as (Hkeep & Hhit & Hnone).
  split; [|split].
  - apply (Hkeep (searcher (Some 6) specimen_mapping) "r2" None after_first_call
             (Utils.get_fields config "_doc" (searcher (Some 6) specimen_mapping)
                "r2" None after_first_call).1
             (Utils.get_fields config "_doc" (searcher (Some 6) specimen_mapping)
                "r2" None after_first_call).2).
    + vm_compute; reflexivity.
    + vm_compute; reflexivity.
  - refine (Hhit (searcher (Some 5) specimen_mapping)
              (searcher (Some 5) (mapping_of ["_id"; "colour"]))
              "r1" None (Some 7) 5 start (specimen_mapping, specimen_fields)
              after_first_call after_first_call _ _ _ _).
    + vm_compute; reflexivity.
    + vm_compute; reflexivity.
    + vm_compute; reflexivity.
    + apply later_now.
  - destruct (Hnone (searcher None specimen_mapping) (searcher None specimen_mapping)
                "r1" None (Some 7) start
                (Ok (specimen_mapping, [mkField "_id" "integer"]))
                (mkState ∅ [GetRoundedVersions ["nhm-r1"] None; GetMapping "nhm-r1"])
                (mkState ∅ [GetRoundedVersions ["nhm-r1"] None; GetMapping "nhm-r1"]))
      as [Hcalls Hsame].
    + apply reachable_start.
    + vm_compute; reflexivity.
    + vm_compute; reflexivity.
    + vm_compute; reflexivity.
    + apply later_now.
    + split; [exact Hcalls | exact (Hsame eq_refl)].
Defined.

(** Counterexample for C3 as stated, at rounded version [None]: nothing is cached
    then, so a second call reads the mapping again and returns what the
    backend holds by then. *)
Lemma same_rounded_version_same_result_fails :
  ~ Utils.same_rounded_version_same_result config "_doc".
Proof.
  intros H.
  specialize (H (searcher None (mapping_of []))
                (searcher None specimen_mapping)
                "r1" None None None start
                (Ok (mapping_of [], [mkField "_id" "integer"]))
                (mkState ∅ [GetRoundedVersions ["nhm-r1"] None; GetMapping "nhm-r1"])
                (Ok (specimen_mapping, [mkField "_id" "integer"]))
                (mkState ∅ [GetRoundedVersions ["nhm-r1"] None; GetMapping "nhm-r1";
                            GetRoundedVersions ["nhm-r1"] None; GetMapping "nhm-r1"])).
  assert (Ok (specimen_mapping, [mkField "_id" "integer"])
          = Ok (mapping_of [], [mkField "_id" "integer"])) as Heq.
  { apply H.
    - apply reachable_start.
    - vm_compute; reflexivity.
    - vm_compute; reflexivity.
    - vm_compute; reflexivity.
    - vm_compute; reflexivity. }
  apply (f_equal (fun r => match r with
                           | Ok (m, _) => Utils.data_field_names "_doc" m
                           | Raise e => Raise e
                           end)) in Heq.
  vm_compute in Heq. discriminate.
Qed.

Lemma no_version_nothing_cached_witness :
  exists st',
    Utils.get_fields config "_doc" (searcher None specimen_mapping) "r1" None start
    = (Ok (specimen_mapping, [mkField "_id" "integer"]), st') /\
    field_cache st' = field_cache start.
Proof.
  apply (no_version_nothing_cached config "_doc"
           (searcher None specimen_mapping) "r1" None start specimen_mapping).
  - apply reachable_start.
  - vm_compute; reflexivity.
  - vm_compute; reflexivity.
Defined.

Lemma existence_checks_witness :
  exists names',
    list_remove "_id" ["_id"; "age"; "name"] = Ok names' /\
    (forall f, f ∈ names' <-> (f ∈ ["_id"; "age"; "name"] /\ f <> "_id")) /\
    forall responses,
      msearch (elasticsearch (searcher (Some 5) specimen_mapping)) ["nhm-r1"]
        (Utils.field_search 5 <$> names') = Ok responses ->
      exists fields st',
        Utils.get_fields config "_doc" (searcher (Some 5) specimen_mapping)
          "r1" None start
        = (Ok (specimen_mapping, mkField "_id" "integer" :: fields), st') /\
        calls st'
        = calls start ++ [GetRoundedVersions ["nhm-r1"] None;
                          GetMapping "nhm-r1";
                          Execute (mkMultiSearch ["nhm-r1"]
                                     (Utils.field_search 5 <$> names'))] /\
        (forall i f,
           names' !! i = Some f ->
           f ∈ field_id <$> fields <->
           exists response,
             responses !! i = Some response /\ 0 < hits_total response) /\
        Forall (fun f => field_type f = "string") fields.
Proof.
  apply (existence_checks config "_doc" (searcher (Some 5) specimen_mapping)
           "r1" None start 5 specimen_mapping ["_id"; "age"; "name"]).
  - vm_compute; reflexivity.
  - vm_compute; reflexivity.
  - vm_compute; reflexivity.
  - vm_compute; reflexivity.
  - apply list_elem_of_here.
Defined.

(** Counterexample for C4 as stated, at ['_id']: the mapping declares it among the data
    fields, yet no search is sent for it. *)
Lemma sub_query_for_every_declared_field_fails :
  ~ Utils.sub_query_for_every_declared_field config "_doc".
Proof.
  intros H.
  destruct (H (searcher (Some 5) specimen_mapping) "r1" None start 5
              specimen_mapping ["_id"; "age"; "name"]
              (Ok (specimen_mapping, specimen_fields)) after_first_call)
    with (field := "_id") as (search & Hcall & Hsearch).
  - vm_compute; reflexivity.
  - vm_compute; reflexivity.
  - vm_compute; reflexivity.
  - vm_compute; reflexivity.
  - vm_compute; reflexivity.
  - apply list_elem_of_here.
  - unfold after_first_call in Hcall. simpl in Hcall.
    apply elem_of_cons in Hcall as [?|Hcall]; [discriminate|].
    apply elem_of_cons in Hcall as [?|Hcall]; [discriminate|].
    apply list_elem_of_singleton in Hcall. injection Hcall as ->.
    simpl in Hsearch.
    apply elem_of_cons in Hsearch as [Heq|Hsearch]; [vm_compute in Heq; discriminate|].
    apply list_elem_of_singleton in Hsearch. vm_compute in Hsearch. discriminate.
Qed.

Lemma identity_field_first_witness :
  head specimen_fields = Some (mkField "_id" "integer") /\
  length (base.filter (fun f => field_id f = "_id") specimen_fields) = 1%nat /\
  (forall f, f ∈ specimen_fields -> field_type f <> "string" ->
             f = mkField "_id" "integer") /\
  exists new,
    calls after_first_call = calls start ++ new /\
    forall search s,
      Execute search ∈ new -> s ∈ ms_searches search ->
      Exists (Utils.prefix_field "_id") ∉ filters s.
Proof.
  apply (identity_field_first config "_doc" (searcher (Some 5) specimen_mapping)
           "r1" None start specimen_mapping specimen_fields after_first_call).
  - apply reachable_start.
  - vm_compute; reflexivity.
Defined.

End FieldCache.

(** ** The order a sort specification puts on documents *)

Module Ordering.
Import ES SortOrder.

Lemma ascii_compare_refl a : Ascii.compare a a = Eq.
Proof. apply N.compare_refl. Qed.

Lemma ascii_compare_lt_trans a b c :
  Ascii.compare a b = Lt -> Ascii.compare b c = Lt -> Ascii.compare a c = Lt.
Proof.
  unfold Ascii.compare. rewrite !N.compare_lt_iff. apply N.lt_trans.
Qed.

Lemma string_compare_refl s : String.compare s s = Eq.
Proof.
  induction s as [|a s IH]; simpl; [done|]. by rewrite ascii_compare_refl.
Qed.

Lemma string_compare_lt_trans s1 :
  forall s2 s3,
    String.compare s1 s2 = Lt -> String.compare s2 s3 = Lt ->
    String.compare s1 s3 = Lt.
Proof.
  induction s1 as [|a s1 IH]; intros [|b s2] [|c s3]; simpl; try done.
  destruct (Ascii.compare a b) eqn:Hab; [|clear IH|done];
    destruct (Ascii.compare b c) eqn:Hbc; try done; intros H12 H23.
  - apply Ascii.compare_eq_iff in Hab as ->. rewrite Hbc. by eapply IH.
  - apply Ascii.compare_eq_iff in Hab as ->. by rewrite Hbc.
  - apply Ascii.compare_eq_iff in Hbc as <-. by rewrite Hab.
  - by rewrite (ascii_compare_lt_trans a b c).
Qed.

Lemma value_compare_refl x : value_compare x x = Eq.
Proof. destruct x; simpl; [apply Z.compare_refl | apply string_compare_refl]. Qed.

Lemma value_compare_eq x y : value_compare x y = Eq -> x = y.
Proof.
  destruct x, y; simpl; try done.
  - by intros ->%Z.compare_eq.
  - by intros ->%String.compare_eq_iff.
Qed.

Lemma value_compare_antisym x y : value_compare y x = CompOpp (value_compare x y).
Proof.
  destruct x, y; simpl; try done.
  - apply Z.compare_antisym.
  - apply String.compare_antisym.
Qed.

Lemma value_compare_lt_trans x y z :
  value_compare x y = Lt -> value_compare y z = Lt -> value_compare x z = Lt.
Proof.
  destruct x, y, z; simpl; try done.
  - rewrite !Z.compare_lt_iff. apply Z.lt_trans.
  - apply string_compare_lt_trans.
Qed.

(** A key only looks at the documents' values for its field. *)
Lemma key_compare_refl k a : key_compare k a a = Eq.
Proof.
  unfold key_compare. destruct (a (sort_field k)); [|done].
  destruct (sort_order k); apply value_compare_refl.
Qed.

Lemma key_compare_eq k a b :
  key_compare k a b = Eq <-> a (sort_field k) = b (sort_field k).
Proof.
  unfold key_compare. split.
  - destruct (a (sort_field k)), (b (sort_field k)); try done.
    destruct (sort_order k); intros H%value_compare_eq; by subst.
  - intros ->. destruct (b (sort_field k)); [|done].
    destruct (sort_order k); apply value_compare_refl.
Qed.

Lemma key_compare_antisym k a b :
  key_compare k b a = CompOpp (key_compare k a b).
Proof.
  unfold key_compare.
  destruct (a (sort_field k)), (b (sort_field k)); try done.
  destruct (sort_order k); apply value_compare_antisym.
Qed.

Lemma key_compare_lt_trans k a b c :
  key_compare k a b = Lt -> key_compare k b c = Lt -> key_compare k a c = Lt.
Proof.
  unfold key_compare.
  destruct (a (sort_field k)), (b (sort_field k)), (c (sort_field k)); try done.
  destruct (sort_order k); [apply value_compare_lt_trans|].
  intros H1 H2. by apply (value_compare_lt_trans _ _ _ H2 H1).
Qed.

Lemma key_compare_eq_l k a b c :
  key_compare k a b = Eq -> key_compare k a c = key_compare k b c.
Proof. intros H%key_compare_eq. unfold key_compare. by rewrite H. Qed.

Lemma key_compare_eq_r k a b c :
  key_compare k b c = Eq -> key_compare k a b = key_compare k a c.
Proof. intros H%key_compare_eq. unfold key_compare. by rewrite H. Qed.

Lemma sort_compare_refl keys a : sort_compare keys a a = Eq.
Proof.
  induction keys as [|k keys IH]; simpl; [done|]. by rewrite key_compare_refl.
Qed.

Lemma sort_compare_eq keys a b :
  sort_compare keys a b = Eq <->
  Forall (fun k => a (sort_field k) = b (sort_field k)) keys.
Proof.
  induction keys as [|k keys IH]; simpl; [by split; [constructor|]|].
  rewrite Forall_cons, <- IH, <- key_compare_eq.
  destruct (key_compare k a b); split; (done || by intros [? ?]).
Qed.

Lemma sort_compare_antisym keys a b :
  sort_compare keys b a = CompOpp (sort_compare keys a b).
Proof.
  induction keys as [|k keys IH]; simpl; [done|].
  rewrite (key_compare_antisym k a b). by destruct (key_compare k a b).
Qed.

Lemma sort_compare_lt_trans keys a b c :
  sort_compare keys a b = Lt -> sort_compare keys b c = Lt ->
  sort_compare keys a c = Lt.
Proof.
  induction keys as [|k keys IH]; simpl; [done|].
  destruct (key_compare k a b) eqn:Hab; [| |done].
  - rewrite (key_compare_eq_l k a b c Hab).
    destruct (key_compare k b c); [apply IH|done..].
  - destruct (key_compare k b c) eqn:Hbc; [| |done].
    + by rewrite <- (key_compare_eq_r k a b c Hbc), Hab.
    + by rewrite (key_compare_lt_trans k a b c Hab Hbc).
Qed.

(** Whatever the keys, the order is strict, and two documents are left
    unordered only when they agree on every key. *)
Lemma before_strict_total keys :
  (forall a, ~ before keys a a) /\
  (forall a b c, before keys a b -> before keys b c -> before keys a c) /\
  (forall a b, before keys a b -> ~ before keys b a) /\
  (forall a b,
     before keys a b \/ before keys b a \/
     Forall (fun k => a (sort_field k) = b (sort_field k)) keys).
Proof.
  unfold before. split_and!.
  - intros a. by rewrite sort_compare_refl.
  - apply sort_compare_lt_trans.
  - intros a b Hab. rewrite (sort_compare_antisym keys a b), Hab. done.
  - intros a b. rewrite (sort_compare_antisym keys a b), <- sort_compare_eq.
    destruct (sort_compare keys a b); simpl; auto.
Qed.

End Ordering.

(** ** The multisearch actions *)

Module Actions.
Import ES Multisearch.

Section WithEnv.
Variables Context Fields Guess datetime : Type.
Variable env : Env Context Fields Guess datetime.


Ltac run :=
  unfold Multisearch.datastore_multisearch, Multisearch.datastore_guess_fields,
    try_validation, bind, lift, ret, raise, gets, new_timer, add_event, log,
    log_query, modify; simpl.

(** Once the query is valid and some resource is accessible, the action
    sends [search_sent] and goes on with what the backend answers. *)
Lemma multisearch_run context query query_version version resource_ids
    resource_ids_and_versions size after top_resources timings st
    search allowed skipped :
  validate_query env (default (JObj ∅) query)
    (default (get_latest_query_version env) query_version) = Ok tt ->
  translate_query env (default (JObj ∅) query)
    (default (get_latest_query_version env) query_version) = Ok search ->
  determine_resources_to_search env context resource_ids resource_ids_and_versions
    = (allowed, skipped) ->
  allowed <> [] ->
  datastore_multisearch env context query query_version version resource_ids
    resource_ids_and_versions size after top_resources timings st
  = let sent :=
      search_sent env search allowed version resource_ids_and_versions size after
        top_resources in
    let sent_calls := calls st ++ [Execute (mkMultiSearch [] [sent])] in
    let events :=
      ["validate"; "translate"; "determine_resources"; "version_filter";
       "search_params"] in
    match msearch (ES_CLIENT env) [] [sent] with
    | Raise e => (Raise e, mkState events sent_calls (query_log st))
    | Ok [] => (Raise StopIteration, mkState events sent_calls (query_log st))
    | Ok (result :: _) =>
        match calculate_after result (clamp 1000 size) with
        | Raise e => (Raise e, mkState (events ++ ["run"]) sent_calls (query_log st))
        | Ok (hits, next_after) =>
            let response :=
              mkResponse (hits_total result) next_after (records_of env hits)
                skipped None None in
            let with_top :=
              if top_resources then
                match agg_buckets result !! "indexes" with
                | Some buckets =>
                    Ok (set_top_resources
                          ((fun bucket => (trim_index_name env bucket.1, bucket.2))
                             <$> buckets) response)
                | None => Raise (KeyError "indexes")
                end
              else Ok response in
            match with_top with
            | Raise e => (Raise e, mkState (events ++ ["run"]) sent_calls (query_log st))
            | Ok response =>
                let events :=
                  events ++ ["run"; "response"; "response_modifiers"; "log"] in
                (Ok (finish env timings events response),
                 mkState events sent_calls
                   (query_log st ++ [(default (JObj ∅) query, "multisearch")]))
            end
        end
    end.
Proof.
  intros Hvalid Htrans Hres Hallowed. run.
  rewrite Hvalid. simpl. rewrite Htrans. simpl. rewrite Hres.
  destruct allowed as [|resource_id others]; [done|]. simpl.
  unfold execute, Multisearch.search_sent, clamp. simpl.
  destruct (msearch _ _ _) as [[|result responses]|e]; simpl; [done| |done].
  destruct (calculate_after _ _) as [[hits next_after]|e]; simpl; [|done].
  unfold Multisearch.finish, dict_getitem.
  destruct top_resources; simpl.
  - destruct (agg_buckets result !! "indexes"); simpl; [|done].
    by destruct timings.
  - by destruct timings.
Qed.

Lemma multisearch_calls context query query_version version resource_ids
    resource_ids_and_versions size after top_resources timings st :
  let st' :=
    (datastore_multisearch env context query query_version version resource_ids
       resource_ids_and_versions size after top_resources timings st).2 in
  calls st' = calls st \/
  exists search allowed,
    calls st'
    = calls st
        ++ [Execute (mkMultiSearch []
              [search_sent env search allowed version resource_ids_and_versions
                 size after top_resources])].
Proof.
  destruct (validate_query env (default (JObj ∅) query)
              (default (get_latest_query_version env) query_version))
    as [[]|e] eqn:Hvalid.
  2: { left. run. rewrite Hvalid. simpl. by destruct e. }
  destruct (translate_query env (default (JObj ∅) query)
              (default (get_latest_query_version env) query_version))
    as [search|e] eqn:Htrans.
  2: { left. run. rewrite Hvalid. simpl. rewrite Htrans. by destruct e. }
  destruct (determine_resources_to_search env context resource_ids
              resource_ids_and_versions) as [allowed skipped] eqn:Hres.
  destruct (decide (allowed = [])) as [->|Hallowed].
  { left. run. rewrite Hvalid. simpl. rewrite Htrans. simpl. by rewrite Hres. }
  right. exists search, allowed. simpl.
  rewrite (multisearch_run _ _ _ _ _ _ _ _ _ _ _ search allowed skipped) by done.
  simpl. destruct (msearch _ _ _) as [[|result responses]|e]; [done| |done].
  destruct (calculate_after _ _) as [[hits next_after]|e]; [|done].
  destruct top_resources; [|done].
  by destruct (agg_buckets result !! "indexes").
Qed.

Lemma multisearch_sent_call context query query_version version resource_ids
    resource_ids_and_versions size after top_resources timings st
    search allowed skipped :
  validate_query env (default (JObj ∅) query)
    (default (get_latest_query_version env) query_version) = Ok tt ->
  translate_query env (default (JObj ∅) query)
    (default (get_latest_query_version env) query_version) = Ok search ->
  determine_resources_to_search env context resource_ids resource_ids_and_versions
    = (allowed, skipped) ->
  allowed <> [] ->
  calls (datastore_multisearch env context query query_version version
           resource_ids resource_ids_and_versions size after top_resources
           timings st).2
  = calls st
      ++ [Execute (mkMultiSearch []
            [search_sent env search allowed version resource_ids_and_versions
               size after top_resources])].
Proof.
  intros Hvalid Htrans Hres Hallowed.
  rewrite (multisearch_run _ _ _ _ _ _ _ _ _ _ _ search allowed skipped) by done.
  simpl.
  destruct (msearch _ _ _) as [[|result responses]|e]; simpl; [done| |done].
  destruct (calculate_after _ _) as [[hits next_after]|e]; simpl; [|done].
  destruct top_resources; simpl; [|done].
  by destruct (agg_buckets result !! "indexes").
Qed.

Lemma search_sent_sort search allowed version resource_ids_and_versions size
    after top_resources :
  sort (search_sent env search allowed version resource_ids_and_versions size
          after top_resources) = default_sort.
Proof. unfold Multisearch.search_sent. by destruct after, top_resources. Qed.

Lemma search_sent_size search allowed version resource_ids_and_versions size
    after top_resources :
  extra_size (search_sent env search allowed version resource_ids_and_versions
                size after top_resources) = Some (clamp 1000 size + 1).
Proof. unfold Multisearch.search_sent. by destruct after, top_resources. Qed.

Lemma clamp_bounds bound size :
  0 <= bound -> 0 <= clamp bound size <= bound.
Proof. unfold clamp. lia. Qed.

Lemma finish_after timings events response :
  plugins env = [] -> Multisearch.after (finish env timings events response)
                      = Multisearch.after response.
Proof.
  intros Hnone. unfold Multisearch.finish, Multisearch.modify_response.
  rewrite Hnone. by destruct timings.
Qed.

(** Field guessing, once the query is valid and some resource is accessible. *)
Lemma guess_fields_run context query query_version version resource_ids
    resource_ids_and_versions size ignore_groups st search allowed skipped :
  validate_query env (default (JObj ∅) query)
    (default (get_latest_query_version env) query_version) = Ok tt ->
  translate_query env (default (JObj ∅) query)
    (default (get_latest_query_version env) query_version) = Ok search ->
  determine_resources_to_search env context resource_ids resource_ids_and_versions
    = (allowed, skipped) ->
  allowed <> [] ->
  datastore_guess_fields env context query query_version version resource_ids
    resource_ids_and_versions size ignore_groups st
  = let search := guess_search env search allowed version resource_ids_and_versions in
    let searched := find_searched_resources env search allowed in
    let all_fields := guess_fields_of env searched ignore_groups in
    let found := calls st ++ [FindSearchedResources search allowed] in
    match searched with
    | [resource_id] =>
        match
          match resource_ids_and_versions with
          | None => Ok (default (now env) version)
          | Some versions => dict_getitem versions resource_id
          end
        with
        | Ok up_to_version =>
            (Ok (get_single_resource_fields env all_fields resource_id
                   up_to_version search size),
             mkState (timer st)
               (found ++ [GetSingleResourceFields resource_id up_to_version
                            search size])
               (query_log st))
        | Raise e => (Raise e, mkState (timer st) found (query_log st))
        end
    | _ =>
        (Ok (select_fields env all_fields search (clamp 25 size)),
         mkState (timer st) (found ++ [SelectFields search (clamp 25 size)])
           (query_log st))
    end.
Proof.
  intros Hvalid Htrans Hres Hallowed. run.
  rewrite Hvalid. simpl. rewrite Htrans. simpl. rewrite Hres.
  destruct allowed as [|first others]; [done|]. simpl.
  unfold Multisearch.guess_search, Multisearch.guess_fields_of, clamp.
  destruct (find_searched_resources env _ _) as [|resource_id [|second rest]];
    simpl; [done| |done].
  destruct resource_ids_and_versions as [versions|]; simpl; [|done].
  by destruct (dict_getitem versions resource_id).
Qed.

Lemma finish_without_plugins timings events response :
  plugins env = [] ->
  finish env timings events response
  = if timings then set_timings (timer_to_dict env events) response else response.
Proof.
  intros Hnone. unfold Multisearch.finish, Multisearch.modify_response.
  by rewrite Hnone.
Qed.


(** C2. A [datastore_multisearch] request whose query is valid and that has
    a resource to search hands exactly one search to the backend, and that
    search carries the three-key sort (modified descending, record id
    descending, index name descending) and no other key, whatever sort the
    translated query came with; a request that does not get that far sends
    nothing, so every search sent carries this sort. The order the sort puts
    on documents is a strict total order on their (modified, id, index)
    triples: irreflexive, transitive, asymmetric, and two documents are
    unordered only if they agree on all three keys; documents of different
    indexes are always ordered. *)
Theorem fixed_sort_total_order :
  (forall context query query_version version resource_ids
          resource_ids_and_versions size after top_resources timings st c,
     c ∈ drop (length (calls st))
           (calls (datastore_multisearch env context query query_version version
                     resource_ids resource_ids_and_versions size after
                     top_resources timings st).2) ->
     exists sent,
       c = Execute (mkMultiSearch [] [sent]) /\ sort sent = default_sort) /\
  (forall context query query_version version resource_ids
          resource_ids_and_versions size after top_resources timings st
          search allowed skipped,
     validate_query env (default (JObj ∅) query)
       (default (get_latest_query_version env) query_version) = Ok tt ->
     translate_query env (default (JObj ∅) query)
       (default (get_latest_query_version env) query_version) = Ok search ->
     determine_resources_to_search env context resource_ids
       resource_ids_and_versions = (allowed, skipped) ->
     allowed <> [] ->
     exists sent,
       calls (datastore_multisearch env context query query_version version
                resource_ids resource_ids_and_versions size after
                top_resources timings st).2
       = calls st ++ [Execute (mkMultiSearch [] [sent])] /\
       sort sent = default_sort /\
       ES.query sent = ES.query search /\
       ES.index sent = ES.index search ++ (prefix_resource env <$> allowed)) /\
  default_sort
  = [SortKey "data.modified" desc (Some "date");
     SortKey "data._id" desc None;
     SortKey "_index" desc None] /\
  (forall a, ~ SortOrder.before default_sort a a) /\
  (forall a b c,
     SortOrder.before default_sort a b -> SortOrder.before default_sort b c ->
     SortOrder.before default_sort a c) /\
  (forall a b, SortOrder.before default_sort a b -> ~ SortOrder.before default_sort b a) /\
  (forall a b,
     SortOrder.before default_sort a b \/ SortOrder.before default_sort b a \/
     (a "data.modified" = b "data.modified" /\ a "data._id" = b "data._id" /\
      a "_index" = b "_index")) /\
  (forall a b,
     a "_index" <> b "_index" ->
     SortOrder.before default_sort a b \/ SortOrder.before default_sort b a).
Proof.
  destruct (Ordering.before_strict_total default_sort)
    as (Hirr & Htrans & Hasym & Htotal).
  assert (forall a b,
            SortOrder.before default_sort a b \/ SortOrder.before default_sort b a \/
            (a "data.modified" = b "data.modified" /\ a "data._id" = b "data._id" /\
             a "_index" = b "_index")) as Htotal'.
  { intros a b. destruct (Htotal a b) as [?|[?|Hall]]; [by left|by right; left|].
    right; right. unfold default_sort in Hall.
    rewrite !Forall_cons in Hall. simpl in Hall. tauto. }
  split_and!; try done.
  - intros context query query_version version resource_ids
      resource_ids_and_versions size after top_resources timings st c.
    destruct (multisearch_calls context query query_version version resource_ids
                resource_ids_and_versions size after top_resources timings st)
      as [->|(search & allowed & ->)].
    + rewrite drop_all. by intros ?%elem_of_nil.
    + rewrite drop_app_length. intros ->%list_elem_of_singleton.
      eexists. split; [done|]. apply search_sent_sort.
  - intros context query query_version version resource_ids
      resource_ids_and_versions size after top_resources timings st
      search allowed skipped Hvalid Htranslated Hres Hallowed.
    eexists. split.
    + by apply (multisearch_sent_call _ _ _ _ _ _ _ _ _ _ _ search allowed skipped).
    + split; [apply search_sent_sort|].
      unfold Multisearch.search_sent. by destruct after, top_resources.
  - intros a b Hindex. destruct (Htotal' a b) as [?|[?|(_ & _ & ?)]]; auto. done.
Qed.

(** C7. The size used is [max(0, min(size, bound))]: with bound 1000 in
    [datastore_multisearch], whose search asks for one more than that, and
    with bound 25 where [datastore_guess_fields] has several resources (or
    none) to look at and calls [select_fields]. *)
Theorem sizes_clamped context query query_version version resource_ids
    resource_ids_and_versions size st search allowed skipped :
  validate_query env (default (JObj ∅) query)
    (default (get_latest_query_version env) query_version) = Ok tt ->
  translate_query env (default (JObj ∅) query)
    (default (get_latest_query_version env) query_version) = Ok search ->
  determine_resources_to_search env context resource_ids resource_ids_and_versions
    = (allowed, skipped) ->
  allowed <> [] ->
  (forall after top_resources timings,
     let N := clamp 1000 size in
     N = Z.max 0 (Z.min size 1000) /\ 0 <= N <= 1000 /\
     exists sent,
       calls (datastore_multisearch env context query query_version version
                resource_ids resource_ids_and_versions size after top_resources
                timings st).2
       = calls st ++ [Execute (mkMultiSearch [] [sent])] /\
       extra_size sent = Some (N + 1)) /\
  (forall ignore_groups,
     let N := clamp 25 size in
     let gsearch := guess_search env search allowed version resource_ids_and_versions in
     let searched := find_searched_resources env gsearch allowed in
     length searched <> 1%nat ->
     N = Z.max 0 (Z.min size 25) /\ 0 <= N <= 25 /\
     datastore_guess_fields env context query query_version version resource_ids
       resource_ids_and_versions size ignore_groups st
     = (Ok (select_fields env (guess_fields_of env searched ignore_groups) gsearch N),
        mkState (timer st)
          (calls st ++ [FindSearchedResources gsearch allowed;
                        SelectFields gsearch N])
          (query_log st))).
Proof.
  intros Hvalid Htrans Hres Hallowed. split.
  - intros after top_resources timings N.
    split; [done|]. split; [by apply clamp_bounds|].
    eexists. split; [|apply search_sent_size].
    by apply (multisearch_sent_call _ _ _ _ _ _ _ _ _ _ _ search allowed skipped).
  - intros ignore_groups N gsearch searched Hlen.
    split; [done|]. split; [by apply clamp_bounds|].
    rewrite (guess_fields_run _ _ _ _ _ _ _ _ _ search allowed skipped) by done.
    simpl. fold gsearch. fold searched. fold N.
    destruct searched as [|resource_id [|second rest]]; simpl in *;
      [|done|]; by rewrite <- app_assoc.
Qed.

(** C6. Where [datastore_guess_fields] has a single resource to look at, the
    version handed to [get_single_resource_fields] is the resource's entry in
    [resource_ids_and_versions] whenever that dict is given, whatever
    [version] is (and a missing entry is a [KeyError], not a fall back to
    [version]); without the dict it is [version], or the current time when
    [version] is [None]. *)
Theorem single_resource_version context query query_version version resource_ids
    resource_ids_and_versions size ignore_groups st search allowed skipped
    resource_id :
  validate_query env (default (JObj ∅) query)
    (default (get_latest_query_version env) query_version) = Ok tt ->
  translate_query env (default (JObj ∅) query)
    (default (get_latest_query_version env) query_version) = Ok search ->
  determine_resources_to_search env context resource_ids resource_ids_and_versions
    = (allowed, skipped) ->
  allowed <> [] ->
  let gsearch := guess_search env search allowed version resource_ids_and_versions in
  find_searched_resources env gsearch allowed = [resource_id] ->
  let run :=
    datastore_guess_fields env context query query_version version resource_ids
      resource_ids_and_versions size ignore_groups st in
  let found := calls st ++ [FindSearchedResources gsearch allowed] in
  let used up_to_version :=
    (Ok (get_single_resource_fields env
           (guess_fields_of env [resource_id] ignore_groups) resource_id
           up_to_version gsearch size),
     mkState (timer st)
       (found ++ [GetSingleResourceFields resource_id up_to_version gsearch size])
       (query_log st)) in
  match resource_ids_and_versions with
  | Some versions =>
      match versions !! resource_id with
      | Some up_to_version => run = used up_to_version
      | None =>
          run = (Raise (KeyError resource_id),
                 mkState (timer st) found (query_log st))
      end
  | None => run = used (default (now env) version)
  end.
Proof.
  intros Hvalid Htrans Hres Hallowed gsearch Hsearched run found used.
  subst run.
  rewrite (guess_fields_run _ _ _ _ _ _ _ _ _ search allowed skipped) by done.
  simpl. fold gsearch. rewrite Hsearched.
  destruct resource_ids_and_versions as [versions|]; [|done].
  unfold dict_getitem. by destruct (versions !! resource_id).
Qed.

(** C8. When the resource resolution leaves no resource to search, both
    [datastore_multisearch] and [datastore_guess_fields] raise a validation
    error, and no search has been handed to the backend. The error is of the
    kind a caller can correct; a failure of the backend, in contrast, comes
    out of [datastore_multisearch] as the transport error it is. *)
Theorem no_accessible_resources :
  (forall context query query_version version resource_ids
          resource_ids_and_versions st search skipped,
     validate_query env (default (JObj ∅) query)
       (default (get_latest_query_version env) query_version) = Ok tt ->
     translate_query env (default (JObj ∅) query)
       (default (get_latest_query_version env) query_version) = Ok search ->
     determine_resources_to_search env context resource_ids
       resource_ids_and_versions = ([], skipped) ->
     let e := ValidationError "The requested resources aren't accessible to this user" in
     (forall size after top_resources timings,
        exists st',
          datastore_multisearch env context query query_version version
            resource_ids resource_ids_and_versions size after top_resources
            timings st = (Raise e, st') /\
          calls st' = calls st) /\
     (forall size ignore_groups,
        exists st',
          datastore_guess_fields env context query query_version version
            resource_ids resource_ids_and_versions size ignore_groups st
          = (Raise e, st') /\
          calls st' = calls st) /\
     user_correctable e = true /\ backend_failure e = false) /\
  (forall context query query_version version resource_ids
          resource_ids_and_versions size after top_resources timings st
          search allowed skipped info,
     validate_query env (default (JObj ∅) query)
       (default (get_latest_query_version env) query_version) = Ok tt ->
     translate_query env (default (JObj ∅) query)
       (default (get_latest_query_version env) query_version) = Ok search ->
     determine_resources_to_search env context resource_ids
       resource_ids_and_versions = (allowed, skipped) ->
     allowed <> [] ->
     msearch (ES_CLIENT env) []
       [search_sent env search allowed version resource_ids_and_versions size
          after top_resources] = Raise (TransportError info) ->
     (datastore_multisearch env context query query_version version resource_ids
        resource_ids_and_versions size after top_resources timings st).1
     = Raise (TransportError info) /\
     user_correctable (TransportError info) = false /\
     backend_failure (TransportError info) = true).
Proof.
  split.
  - intros context query query_version version resource_ids
      resource_ids_and_versions st search skipped Hvalid Htrans Hres e.
    split_and!; [| |done..].
    + intros size after top_resources timings. eexists. split.
      * run. rewrite Hvalid. simpl. rewrite Htrans. simpl. by rewrite Hres.
      * done.
    + intros size ignore_groups. eexists. split.
      * run. rewrite Hvalid. simpl. rewrite Htrans. simpl. by rewrite Hres.
      * done.
  - intros context query query_version version resource_ids
      resource_ids_and_versions size after top_resources timings st
      search allowed skipped info Hvalid Htrans Hres Hallowed Hms.
    rewrite (multisearch_run _ _ _ _ _ _ _ _ _ _ _ search allowed skipped) by done.
    simpl. by rewrite Hms.
Qed.

(** C9. [datastore_resolve_slug] raises the validation error "Slug not
    found" when the slug does not resolve, a message no other error of these
    actions carries. When it resolves, the result holds the stored query,
    query_version, version, resource_ids and resource_ids_and_versions, and
    the creation time in ISO format under ['created']: these six keys and no
    other. *)
Theorem resolve_slug_result slug :
  (resolve_slug env slug = None ->
   datastore_resolve_slug env slug = Raise (ValidationError "Slug not found") /\
   user_correctable (ValidationError "Slug not found") = true /\
   ValidationError "Slug not found"
   <> ValidationError "The requested resources aren't accessible to this user") /\
  (forall found_slug,
     resolve_slug env slug = Some found_slug ->
     exists result,
       datastore_resolve_slug env slug = Ok result /\
       result !! "query" = Some (Multisearch.query found_slug) /\
       result !! "query_version" = Some (Multisearch.query_version found_slug) /\
       result !! "version" = Some (Multisearch.version found_slug) /\
       result !! "resource_ids" = Some (Multisearch.resource_ids found_slug) /\
       result !! "resource_ids_and_versions"
         = Some (Multisearch.resource_ids_and_versions found_slug) /\
       result !! "created" = Some (JStr (isoformat env (created found_slug))) /\
       dom result
       = list_to_set ["query"; "query_version"; "version"; "resource_ids";
                      "resource_ids_and_versions"; "created"]).
Proof.
  unfold Multisearch.datastore_resolve_slug. split.
  - intros ->. by split_and!.
  - intros found_slug ->. simpl. unfold slug_getattr. simpl.
    eexists. split; [done|]. by split_and!.
Qed.

End WithEnv.

(** *** Worked instances *)

Import Samples.



(** The search of a sample call, and three documents: the newest first; of
    two modified at the same time the higher id first; a document without
    modification time last. *)
Lemma fixed_sort_total_order_witness :
  (exists sent,
     calls (datastore_multisearch (env three_hits) tt None None None None None 2
              None false false idle).2
     = [Execute (mkMultiSearch [] [sent])] /\
     sort sent = default_sort) /\
  SortOrder.before default_sort
    (doc_of (Some 2000) 3 "nhm-r1") (doc_of None 8 "nhm-r1") /\
  ~ SortOrder.before default_sort
      (doc_of (Some 1000) 7 "nhm-r2") (doc_of (Some 2000) 3 "nhm-r1") /\
  (SortOrder.before default_sort
     (doc_of (Some 1000) 7 "nhm-r2") (doc_of (Some 1000) 7 "nhm-r1") \/
   SortOrder.before default_sort
     (doc_of (Some 1000) 7 "nhm-r1") (doc_of (Some 1000) 7 "nhm-r2")).
Proof.
  destruct (fixed_sort_total_order unit unit (Z * Z)%type Z (env three_hits))
    as (_ & Hsent & _ & _ & Htrans & Hasym & _ & Hindex).
  split_and!.
  - destruct (Hsent tt None None None None None 2 None false false idle
                new_search ["r1"; "r2"] [] eq_refl eq_refl eq_refl
                ltac:(discriminate)) as (sent & Hcalls & Hsort & _).
    exists sent. split; [exact Hcalls | exact Hsort].
  - apply (Htrans _ (doc_of (Some 1000) 7 "nhm-r2")); reflexivity.
  - apply Hasym. reflexivity.
  - apply Hindex. discriminate.
Defined.

(** 4000 records are asked for: the search asks for 1001. With two
    resources, 40 field groups are asked for: 25 are selected. *)
Lemma sizes_clamped_witness :
  (exists sent,
     calls (datastore_multisearch (env three_hits) tt None None None None None
              4000 None false false idle).2
     = calls idle ++ [Execute (mkMultiSearch [] [sent])] /\
     extra_size sent = Some 1001) /\
  datastore_guess_fields (env three_hits) tt None None None None None 40 None idle
  = (Ok (0, 25),
     let gsearch :=
       guess_search (env three_hits) new_search ["r1"; "r2"] None None in
     Multisearch.mkState []
       [FindSearchedResources gsearch ["r1"; "r2"]; SelectFields gsearch 25] []).
Proof.
  destruct (sizes_clamped unit unit (Z * Z)%type Z (env three_hits) tt None None
              None None None 4000 idle new_search ["r1"; "r2"] []
              eq_refl eq_refl eq_refl ltac:(discriminate)) as [Hsearch _].
  destruct (sizes_clamped unit unit (Z * Z)%type Z (env three_hits) tt None None
              None None None 40 idle new_search ["r1"; "r2"] []
              eq_refl eq_refl eq_refl ltac:(discriminate)) as [_ Hguess].
  split.
  - exact (proj2 (proj2 (Hsearch None false false))).
  - exact (proj2 (proj2 (Hguess None ltac:(discriminate)))).
Defined.

(** [r1] alone is searched, pinned at version 5 by the dict while [version]
    is 9: the fields are read at version 5. *)
Lemma single_resource_version_witness :
  datastore_guess_fields (env three_hits) tt None None (Some 9) (Some ["r1"])
    (Some {[ "r1" := 5 ]}) 10 None idle
  = (Ok (5, 10),
     let gsearch :=
       guess_search (env three_hits) new_search ["r1"] (Some 9)
         (Some {[ "r1" := 5 ]}) in
     Multisearch.mkState []
       [FindSearchedResources gsearch ["r1"];
        GetSingleResourceFields "r1" 5 gsearch 10] []).
Proof.
  exact (single_resource_version unit unit (Z * Z)%type Z (env three_hits) tt None
           None (Some 9) (Some ["r1"]) (Some {[ "r1" := 5 ]}) 10 None idle
           new_search ["r1"] [] "r1" eq_refl eq_refl eq_refl ltac:(discriminate)
           eq_refl).
Defined.

(** An empty list of resources is asked for, so none is accessible; and a
    search against a backend that cannot be reached. *)
Lemma no_accessible_resources_witness :
  (exists st',
     datastore_multisearch (env three_hits) tt None None None (Some []) None 10
       None false false idle
     = (Raise (ValidationError "The requested resources aren't accessible to this user"),
        st') /\
     calls st' = calls idle) /\
  (exists st',
     datastore_guess_fields (env three_hits) tt None None None (Some []) None 10
       None idle
     = (Raise (ValidationError "The requested resources aren't accessible to this user"),
        st') /\
     calls st' = calls idle) /\
  (datastore_multisearch (env_on out_of_reach) tt None None None None None 10
     None false false idle).1
  = Raise (TransportError "ConnectionTimeout").
Proof.
  destruct (no_accessible_resources unit unit (Z * Z)%type Z (env three_hits))
    as [Hnone _].
  destruct (Hnone tt None None None (Some []) None idle new_search []
              eq_refl eq_refl eq_refl) as (Hsearch & Hguess & _).
  destruct (no_accessible_resources unit unit (Z * Z)%type Z (env_on out_of_reach))
    as [_ Hfail].
  split_and!.
  - exact (Hsearch 10 None false false).
  - exact (Hguess 10 None).
  - exact (proj1 (Hfail tt None None None None None 10 None false false idle
                    new_search ["r1"; "r2"] [] "ConnectionTimeout"
                    eq_refl eq_refl eq_refl ltac:(discriminate) eq_refl)).
Defined.

Lemma resolve_slug_result_witness :
  datastore_resolve_slug (env three_hits) "no-such-slug"
    = Raise (ValidationError "Slug not found") /\
  exists result,
    datastore_resolve_slug (env three_hits) "calm-grey-heron" = Ok result /\
    result !! "query" = Some (obj []) /\
    result !! "created" = Some (JStr "2019-07-01T12:00:00").
Proof.
  split.
  - exact (proj1 (proj1 (resolve_slug_result unit unit (Z * Z)%type Z
                           (env three_hits) "no-such-slug") eq_refl)).
  - destruct (proj2 (resolve_slug_result unit unit (Z * Z)%type Z
                       (env three_hits) "calm-grey-heron") stored_slug eq_refl)
      as (result & Hcall & Hquery & _ & _ & _ & _ & Hcreated & _).
    by exists result.
Defined.

End Actions.

(** ** Resources: formats, privacy and facets *)

Module ResourcesFacts.
Import Resources.

Lemma append_inj_r p a b : p +:+ a = p +:+ b -> a = b.
Proof. induction p as [|c p IH]; simpl; [done|]. intros [= H]. by apply IH. Qed.

Lemma append_length a b :
  String.length (a +:+ b) = (String.length a + String.length b)%nat.
Proof. induction a as [|c a IH]; simpl; [done|]. by rewrite IH. Qed.

Lemma lower_ascii_idemp c :
  Multisearch.lower_ascii (Multisearch.lower_ascii c) = Multisearch.lower_ascii c.
Proof.
  unfold Multisearch.lower_ascii.
  destruct ((65 <=? Ascii.N_of_ascii c)%N && (Ascii.N_of_ascii c <=? 90)%N) eqn:Hup.
  - apply andb_true_iff in Hup as [H1%N.leb_le H2%N.leb_le].
    rewrite Ascii.N_ascii_embedding by lia.
    destruct (65 <=? Ascii.N_of_ascii c + 32)%N eqn:H3; [|done].
    destruct (Ascii.N_of_ascii c + 32 <=? 90)%N eqn:H4; [|done].
    apply N.leb_le in H4. lia.
  - by rewrite Hup.
Qed.

Lemma lower_idemp s : Multisearch.lower (Multisearch.lower s) = Multisearch.lower s.
Proof.
  induction s as [|c s IH]; simpl; [done|]. by rewrite lower_ascii_idemp, IH.
Qed.

Section WithConfig.
Variable CONFIG : Utils.Config.
Variable package_private : string -> option bool.

(** Distinct resources have distinct indexes and distinct public aliases,
    and the public alias of a resource is never the name of its own index. *)
Theorem index_and_alias_names :
  (forall a b, Utils.prefix_resource CONFIG a = Utils.prefix_resource CONFIG b -> a = b) /\
  (forall a b,
     get_public_alias_name CONFIG a = get_public_alias_name CONFIG b -> a = b) /\
  (forall a, get_public_alias_name CONFIG a <> Utils.prefix_resource CONFIG a).
Proof.
  unfold get_public_alias_name, Utils.prefix_resource. split_and!.
  - intros a b. apply append_inj_r.
  - intros a b H. by apply append_inj_r, append_inj_r in H.
  - intros a H. apply (f_equal String.length) in H.
    rewrite append_length in H. simpl in H. lia.
Qed.

Lemma make_public_run resource_id c :
  make_public CONFIG resource_id c
  = (Ok tt,
     if bool_decide (Utils.prefix_resource CONFIG resource_id ∈ indices c)
        && negb (bool_decide ((Utils.prefix_resource CONFIG resource_id,
                               get_public_alias_name CONFIG resource_id) ∈ aliases c))
     then mkCluster (indices c)
            (aliases c ∪ {[ (Utils.prefix_resource CONFIG resource_id,
                             get_public_alias_name CONFIG resource_id) ]})
            (writes c ++ [UpdateAliasesAdd (Utils.prefix_resource CONFIG resource_id)
                            (get_public_alias_name CONFIG resource_id)])
     else c).
Proof.
  unfold make_public, bind, indices_exists, indices_exists_alias,
    indices_update_aliases_add, gets, modify, ret. simpl.
  destruct (bool_decide (_ ∈ indices c)); simpl; [|done].
  by destruct (bool_decide (_ ∈ aliases c)).
Qed.

Lemma make_private_run resource_id c :
  make_private CONFIG resource_id c
  = (Ok tt,
     if bool_decide (Utils.prefix_resource CONFIG resource_id ∈ indices c)
        && bool_decide ((Utils.prefix_resource CONFIG resource_id,
                         get_public_alias_name CONFIG resource_id) ∈ aliases c)
     then mkCluster (indices c)
            (aliases c ∖ {[ (Utils.prefix_resource CONFIG resource_id,
                             get_public_alias_name CONFIG resource_id) ]})
            (writes c ++ [DeleteAlias (Utils.prefix_resource CONFIG resource_id)
                            (get_public_alias_name CONFIG resource_id)])
     else c).
Proof.
  unfold make_private, bind, indices_exists, indices_exists_alias,
    indices_delete_alias, gets, modify, ret. simpl.
  destruct (bool_decide (_ ∈ indices c)); simpl; [|done].
  by destruct (bool_decide (_ ∈ aliases c)).
Qed.

(** What one [update_privacy] with a given privacy leaves behind. *)
Lemma update_privacy_run resource_id is_private c :
  exists c',
    update_privacy CONFIG package_private resource_id (Some is_private) c = (Ok tt, c') /\
    indices c' = indices c /\
    (forall p,
       p <> (Utils.prefix_resource CONFIG resource_id,
             get_public_alias_name CONFIG resource_id) ->
       p ∈ aliases c' <-> p ∈ aliases c) /\
    (Utils.prefix_resource CONFIG resource_id ∈ indices c ->
     (Utils.prefix_resource CONFIG resource_id,
      get_public_alias_name CONFIG resource_id) ∈ aliases c'
     <-> is_private = false) /\
    ((Utils.prefix_resource CONFIG resource_id ∉ indices c \/
      ((Utils.prefix_resource CONFIG resource_id,
        get_public_alias_name CONFIG resource_id) ∈ aliases c
       <-> is_private = false)) ->
     c' = c) /\
    (c' = c \/ exists w, writes c' = writes c ++ [w]).
Proof.
  unfold update_privacy, bind, ret. simpl.
  destruct is_private.
  - rewrite make_private_run. eexists. split; [done|].
    destruct (bool_decide_reflect (Utils.prefix_resource CONFIG resource_id ∈ indices c))
      as [Hin|Hnin]; simpl.
    + destruct (bool_decide_reflect
                  ((Utils.prefix_resource CONFIG resource_id,
                    get_public_alias_name CONFIG resource_id) ∈ aliases c))
        as [Hal|Hnal]; simpl.
      * split_and!.
        -- done.
        -- intros p Hp. rewrite elem_of_difference, elem_of_singleton. tauto.
        -- intros _. rewrite elem_of_difference, elem_of_singleton.
           split; [by intros [_ ?]|discriminate].
        -- intros [?|Hiff]; [done|]. by apply Hiff in Hal.
        -- right. by eexists.
      * split_and!.
        -- done.
        -- done.
        -- intros _. split; [done|discriminate].
        -- done.
        -- by left.
    + split_and!.
      * done.
      * done.
      * done.
      * done.
      * by left.
  - rewrite make_public_run. eexists. split; [done|].
    destruct (bool_decide_reflect (Utils.prefix_resource CONFIG resource_id ∈ indices c))
      as [Hin|Hnin]; simpl.
    + destruct (bool_decide_reflect
                  ((Utils.prefix_resource CONFIG resource_id,
                    get_public_alias_name CONFIG resource_id) ∈ aliases c))
        as [Hal|Hnal]; simpl.
      * split_and!.
        -- done.
        -- done.
        -- done.
        -- done.
        -- by left.
      * split_and!.
        -- done.
        -- intros p Hp. rewrite elem_of_union, elem_of_singleton. tauto.
        -- intros _. rewrite elem_of_union, elem_of_singleton.
           split; [done|]. intros _. by right.
        -- intros [?|Hiff]; [done|]. destruct Hnal. by apply Hiff.
        -- right. by eexists.
    + split_and!.
      * done.
      * done.
      * done.
      * done.
      * by left.
Qed.

Local Abbreviation public_alias resource_id :=
  (Utils.prefix_resource CONFIG resource_id, get_public_alias_name CONFIG resource_id).

Lemma public_alias_inj a b : public_alias a = public_alias b -> a = b.
Proof. intros [= H _]. by apply append_inj_r in H. Qed.

(** What the two checks guard against: elasticsearch refuses to delete an
    alias that is not there, and to put an alias on an index that does not
    exist. *)
Lemma unguarded_requests_are_refused index_name alias_name s :
  Requests.failures s = [] ->
  ((index_name, alias_name) ∉ aliases (Requests.cluster s) ->
   Requests.indices_delete_alias index_name alias_name s
   = (Raise (Requests.not_found "aliases_not_found_exception"), s)) /\
  (index_name ∉ indices (Requests.cluster s) ->
   Requests.indices_update_aliases_add index_name alias_name s
   = (Raise (Requests.not_found "index_not_found_exception"), s)).
Proof.
  destruct s as [c fs]. simpl. intros ->.
  unfold Requests.indices_delete_alias, Requests.indices_update_aliases_add,
    Requests.request.
  simpl. split; intros Hmissing; by rewrite (bool_decide_eq_false_2 _ Hmissing).
Qed.

(** One [update_privacy] over requests that can fail: either one of its
    requests met a failure, which is raised, or all were answered and the
    cluster is left as the answering cluster of [Resources] is. *)
Lemma update_privacy_requests resource_id is_private s :
  let run :=
    Requests.update_privacy CONFIG package_private resource_id (Some is_private) s in
  (exists k, Requests.failures run.2 = drop k (Requests.failures s)) /\
  ((exists e,
      run.1 = Raise e /\ Some e ∈ take 3 (Requests.failures s) /\
      Requests.cluster run.2 = Requests.cluster s) \/
   (run.1 = Ok tt /\
    update_privacy CONFIG package_private resource_id (Some is_private)
      (Requests.cluster s)
    = (Ok tt, Requests.cluster run.2))).
Proof.
  destruct s as [c fs].
  unfold Requests.update_privacy, update_privacy, Requests.make_private,
    Requests.make_public, make_private, make_public, Requests.indices_exists,
    Requests.indices_exists_alias, Requests.indices_delete_alias,
    Requests.indices_update_aliases_add, indices_exists, indices_exists_alias,
    indices_delete_alias, indices_update_aliases_add, Requests.request, bind,
    ret, gets, modify.
  simpl.
  destruct is_private; destruct fs as [|[e1|] [|[e2|] [|[e3|] rest]]]; simpl;
    repeat (match goal with
            | |- context [bool_decide ?P] => destruct (bool_decide P) eqn:?
            end; simpl);
    (split;
     [first [by exists 0%nat | by exists 1%nat | by exists 2%nat | by exists 3%nat]
     |first [by right
            |left; eexists; split; [reflexivity|]; split; [|reflexivity];
             rewrite ?elem_of_cons; auto]]).
Qed.

(** [update_privacy] with a given privacy sends at most three requests and
    never touches the indexes. It raises only what one of its requests met
    on the way, never a "not found" of its own making: the alias is deleted
    only when it was seen, and added only to an index that was seen. When it
    returns and the resource has an index, the resource has its public
    alias exactly when it is not private, whatever it had before; when it
    returns and there is no index, the cluster is as it was. *)
Theorem update_privacy_sets_alias resource_id is_private s :
  let run :=
    Requests.update_privacy CONFIG package_private resource_id (Some is_private) s in
  indices (Requests.cluster run.2) = indices (Requests.cluster s) /\
  (run.1 = Ok tt \/
   exists e, run.1 = Raise e /\ Some e ∈ take 3 (Requests.failures s)) /\
  (run.1 = Ok tt ->
   (Utils.prefix_resource CONFIG resource_id ∈ indices (Requests.cluster s) ->
    public_alias resource_id ∈ aliases (Requests.cluster run.2)
    <-> is_private = false) /\
   (Utils.prefix_resource CONFIG resource_id ∉ indices (Requests.cluster s) ->
    Requests.cluster run.2 = Requests.cluster s)).
Proof.
  cbv zeta.
  destruct (update_privacy_run resource_id is_private (Requests.cluster s))
    as (c' & Hrun & Hidx & _ & Hset & Hnoop & _).
  pose proof (update_privacy_requests resource_id is_private s) as Hcases.
  cbv zeta in Hcases.
  destruct Hcases as [_ [(e & Hraise & Hin & Hsame)|[Hok Hanswered]]].
  - split_and!.
    + by rewrite Hsame.
    + right. by exists e.
    + rewrite Hraise. discriminate.
  - rewrite Hrun in Hanswered. injection Hanswered as <-.
    split_and!; [done|by left|].
    intros _. split; [done|]. intros Hnin. apply Hnoop. by left.
Qed.


(** Setting the privacy of one resource leaves every other resource as
    public or private as it was. *)
Theorem update_privacy_leaves_others resource_id is_private c other :
  other <> resource_id ->
  exists c',
    update_privacy CONFIG package_private resource_id (Some is_private) c = (Ok tt, c') /\
    (public_alias other ∈ aliases c' <-> public_alias other ∈ aliases c).
Proof.
  intros Hother.
  destruct (update_privacy_run resource_id is_private c)
    as (c' & Hrun & _ & Hframe & _).
  exists c'. split; [done|]. apply Hframe. by intros ?%public_alias_inj.
Qed.

(** Without a given privacy, the one of the resource's package is used; for
    a resource that is not in the database the call fails with an
    [AttributeError] and the cluster is not touched. *)
Lemma update_privacy_looks_up_package resource_id c :
  match package_private resource_id with
  | Some is_private =>
      update_privacy CONFIG package_private resource_id None c
      = update_privacy CONFIG package_private resource_id (Some is_private) c
  | None =>
      update_privacy CONFIG package_private resource_id None c
      = (Raise (AttributeError "resource_group"), c)
  end.
Proof.
  unfold update_privacy, bind, ret, raise.
  by destruct (package_private resource_id).
Qed.

Lemma for_each_app {St A} (l1 l2 : list A) (body : A -> M St unit) st :
  for_each (l1 ++ l2) body st = (for_each l1 body ;; for_each l2 body) st.
Proof.
  revert st. induction l1 as [|x l1 IH]; intros st; simpl.
  - unfold bind, ret. done.
  - unfold bind in *. destruct (body x st) as [[[]|e] st1]; [|done].
    apply IH.
Qed.

Lemma for_each_nested {St A B} (l : list A) (f : A -> list B)
    (body : B -> M St unit) st :
  for_each l (fun x => for_each (f x) body) st = for_each (l ≫= f) body st.
Proof.
  revert st. induction l as [|x l IH]; intros st; [done|].
  simpl. rewrite for_each_app. unfold bind.
  destruct (for_each (f x) body st) as [[[]|e] st1]; [|done]. apply IH.
Qed.

(** The loop of [update_privacy] over a list of resources. *)
Lemma update_all_run is_private (resources : list Resource) :
  forall c,
  exists c',
    for_each resources
      (fun resource =>
         update_privacy CONFIG package_private (id resource) (Some is_private)) c
    = (Ok tt, c') /\
    indices c' = indices c /\
    (forall p,
       (forall resource, resource ∈ resources -> p <> public_alias (id resource)) ->
       p ∈ aliases c' <-> p ∈ aliases c) /\
    (forall resource,
       resource ∈ resources ->
       Utils.prefix_resource CONFIG (id resource) ∈ indices c ->
       public_alias (id resource) ∈ aliases c' <-> is_private = false) /\
    ((forall resource,
        resource ∈ resources ->
        Utils.prefix_resource CONFIG (id resource) ∈ indices c ->
        public_alias (id resource) ∈ aliases c <-> is_private = false) ->
     c' = c).
Proof.
  induction resources as [|x rest IH]; intros c.
  - exists c. split_and!; try done. by intros resource ?%elem_of_nil.
  - destruct (update_privacy_run (id x) is_private c)
      as (c1 & Hrun & Hidx1 & Hframe1 & Hset1 & Hnoop1 & _).
    destruct (IH c1) as (c' & Hrest & Hidx & Hframe & Hset & Hnoop).
    exists c'. split_and!.
    + simpl. unfold bind. by rewrite Hrun.
    + by rewrite Hidx.
    + intros p Hp. rewrite Hframe, Hframe1; [done| |].
      * apply Hp, list_elem_of_here.
      * intros resource Hin. by apply Hp, list_elem_of_further.
    + intros resource Hin Hindex.
      destruct (decide (id resource ∈ id <$> rest)) as [Hrest'|Hnrest].
      * apply list_elem_of_fmap in Hrest' as (r' & Heq & Hr').
        rewrite Heq. apply Hset; [done|]. by rewrite <- Heq, Hidx1.
      * apply elem_of_cons in Hin as [->|Hin].
        2: { destruct Hnrest. apply list_elem_of_fmap. by exists resource. }
        rewrite Hframe; [by apply Hset1|].
        intros r' Hr' Heq%public_alias_inj. destruct Hnrest.
        apply list_elem_of_fmap. by exists r'.
    + intros Hall.
      assert (c1 = c) as ->.
      { destruct (decide (Utils.prefix_resource CONFIG (id x) ∈ indices c))
          as [Hin|Hnin]; apply Hnoop1; [right|by left].
        by apply Hall; [apply list_elem_of_here|]. }
      apply Hnoop. intros resource Hin. by apply Hall, list_elem_of_further.
Qed.

(** The loop of [update_privacy] over a list of resources, over requests
    that can fail. *)
Lemma update_all_requests is_private (resources : list Resource) :
  forall s,
  let run :=
    for_each resources
      (fun resource =>
         Requests.update_privacy CONFIG package_private (id resource)
           (Some is_private)) s in
  (exists k, Requests.failures run.2 = drop k (Requests.failures s)) /\
  indices (Requests.cluster run.2) = indices (Requests.cluster s) /\
  (forall p,
     (forall resource, resource ∈ resources -> p <> public_alias (id resource)) ->
     p ∈ aliases (Requests.cluster run.2) <-> p ∈ aliases (Requests.cluster s)) /\
  ((exists e, run.1 = Raise e /\ Some e ∈ Requests.failures s) \/
   (run.1 = Ok tt /\
    for_each resources
      (fun resource =>
         update_privacy CONFIG package_private (id resource) (Some is_private))
      (Requests.cluster s)
    = (Ok tt, Requests.cluster run.2))).
Proof.
  induction resources as [|x rest IH]; intros s; cbv zeta.
  - simpl. unfold ret. simpl. split_and!; [by exists 0%nat|done|done|by right].
  - simpl. unfold bind.
    pose proof (update_privacy_requests (id x) is_private s) as Hone.
    cbv zeta in Hone.
    destruct (update_privacy_run (id x) is_private (Requests.cluster s))
      as (c1 & Hrun1 & Hidx1 & Hframe1 & _).
    destruct (Requests.update_privacy CONFIG package_private (id x)
                (Some is_private) s) as [[[]|e] s1]; simpl in Hone.
    + destruct Hone as [[k1 Hk1] [(e & Hraise & _)|[_ Hanswered]]]; [done|].
      rewrite Hrun1 in Hanswered. injection Hanswered as ->.
      specialize (IH s1). cbv zeta in IH.
      destruct IH as ([k Hk] & Hidx & Hframe & Hrest).
      split_and!.
      * exists (k1 + k)%nat. by rewrite Hk, Hk1, drop_drop.
      * by rewrite Hidx.
      * intros p Hp. rewrite Hframe, Hframe1; [done| |].
        -- apply Hp, list_elem_of_here.
        -- intros resource Hin. by apply Hp, list_elem_of_further.
      * destruct Hrest as [(e & Hraise & Hin)|[Hok Hanswered]].
        -- left. exists e. split; [done|].
           rewrite Hk1 in Hin. by apply subseteq_drop in Hin.
        -- right. split; [done|]. by rewrite Hrun1.
    + destruct Hone as [[k1 Hk1] [(e' & Hraise & Hin & Hsame)|[Hok _]]]; [|done].
      injection Hraise as <-. simpl. split_and!.
      * by exists k1.
      * by rewrite Hsame.
      * intros p _. by rewrite Hsame.
      * left. exists e. split; [done|]. by apply subseteq_take in Hin.
Qed.

(** [update_resources_privacy] never touches the indexes, nor the alias of a
    resource outside the package. It raises only what one of its requests
    met on the way. When it returns, every resource of the package that has
    an index is public exactly when the package is not private. *)
Theorem update_resources_privacy_sets_all package s :
  let run := Requests.update_resources_privacy CONFIG package_private package s in
  indices (Requests.cluster run.2) = indices (Requests.cluster s) /\
  (run.1 = Ok tt \/
   exists e, run.1 = Raise e /\ Some e ∈ Requests.failures s) /\
  (forall other,
     (forall resource_group resource,
        resource_group ∈ resource_groups_all package ->
        resource ∈ resources_all resource_group ->
        id resource <> other) ->
     public_alias other ∈ aliases (Requests.cluster run.2)
     <-> public_alias other ∈ aliases (Requests.cluster s)) /\
  (run.1 = Ok tt ->
   forall resource_group resource,
     resource_group ∈ resource_groups_all package ->
     resource ∈ resources_all resource_group ->
     Utils.prefix_resource CONFIG (id resource) ∈ indices (Requests.cluster s) ->
     public_alias (id resource) ∈ aliases (Requests.cluster run.2)
     <-> private package = false).
Proof.
  cbv zeta. unfold Requests.update_resources_privacy. rewrite for_each_nested.
  pose proof (update_all_requests (private package)
                (resource_groups_all package ≫= resources_all) s) as Hloop.
  cbv zeta in Hloop. destruct Hloop as (_ & Hidx & Hframe & Hcases).
  split_and!.
  - done.
  - destruct Hcases as [(e & Hraise & Hin)|[Hok _]]; [right; by exists e|by left].
  - intros other Hother. apply Hframe.
    intros resource (resource_group & Hres & Hgroup)%list_elem_of_bind Heq.
    apply public_alias_inj in Heq. by apply (Hother resource_group resource).
  - intros Hok resource_group resource Hgroup Hres Hindex.
    destruct Hcases as [(e & Hraise & _)|[_ Hanswered]]; [by rewrite Hraise in Hok|].
    destruct (update_all_run (private package)
                (resource_groups_all package ≫= resources_all) (Requests.cluster s))
      as (c' & Hrun & _ & _ & Hset & _).
    rewrite Hrun in Hanswered. injection Hanswered as ->.
    apply Hset; [|done]. apply list_elem_of_bind. by exists resource_group.
Qed.

(** When every request is answered, the privacy functions do to the cluster
    what they do in [Resources], where nothing fails: what is shown there of
    the requests sent and of the other resources holds of these runs. *)
Lemma answered_requests_agree package s :
  Requests.failures s = [] ->
  (forall resource_id is_private,
     exists c',
       update_privacy CONFIG package_private resource_id (Some is_private)
         (Requests.cluster s) = (Ok tt, c') /\
       Requests.update_privacy CONFIG package_private resource_id (Some is_private) s
       = (Ok tt, Requests.mkServer c' [])) /\
  exists c',
    update_resources_privacy CONFIG package_private package (Requests.cluster s)
    = (Ok tt, c') /\
    Requests.update_resources_privacy CONFIG package_private package s
    = (Ok tt, Requests.mkServer c' []).
Proof.
  intros Hnone. split.
  - intros resource_id is_private.
    pose proof (update_privacy_requests resource_id is_private s) as Hcases.
    cbv zeta in Hcases. rewrite Hnone in Hcases.
    destruct (Requests.update_privacy CONFIG package_private resource_id
                (Some is_private) s) as [r [c' fs]]; simpl in Hcases.
    destruct Hcases as [[k Hk] [(e & _ & Hin & _)|[-> Hanswered]]].
    + by apply elem_of_nil in Hin.
    + exists c'. split; [done|]. by rewrite Hk, drop_nil.
  - unfold Requests.update_resources_privacy, update_resources_privacy.
    rewrite !for_each_nested.
    pose proof (update_all_requests (private package)
                  (resource_groups_all package ≫= resources_all) s) as Hloop.
    cbv zeta in Hloop. rewrite Hnone in Hloop.
    destruct (for_each (resource_groups_all package ≫= resources_all)
                (fun resource =>
                   Requests.update_privacy CONFIG package_private (id resource)
                     (Some (private package))) s) as [r [c' fs]]; simpl in Hloop.
    destruct Hloop as ([k Hk] & _ & _ & [(e & _ & Hin)|[-> Hanswered]]).
    + by apply elem_of_nil in Hin.
    + exists c'. split; [done|]. by rewrite Hk, drop_nil.
Qed.

(** Running [update_resources_privacy] again changes nothing and sends no
    request that writes: the privacy is already set. *)
Theorem update_resources_privacy_idempotent package c c' :
  update_resources_privacy CONFIG package_private package c = (Ok tt, c') ->
  update_resources_privacy CONFIG package_private package c' = (Ok tt, c').
Proof.
  unfold update_resources_privacy. rewrite !for_each_nested. intros Hfirst.
  destruct (update_all_run (private package)
              (resource_groups_all package ≫= resources_all) c)
    as (c1 & Hrun & Hidx & _ & Hset & _).
  rewrite Hrun in Hfirst. injection Hfirst as ->.
  destruct (update_all_run (private package)
              (resource_groups_all package ≫= resources_all) c')
    as (c2 & Hrun2 & _ & _ & _ & Hnoop).
  rewrite Hrun2. f_equal. apply Hnoop.
  intros resource Hin Hindex. apply Hset; [done|]. by rewrite <- Hidx.
Qed.

End WithConfig.

(** A resource whose url marks it as datastore only is ingestible whatever
    its format is, even one that is no string; a resource dict without a url
    is a [KeyError], even with a format that could be ingested. *)
Theorem ingestible_by_url resource :
  (forall url,
     resource !! "url" = Some (JStr url) ->
     url = "_datastore_only_resource" \/
     url = "http://_datastore_only_resource" \/
     url = "https://_datastore_only_resource" ->
     is_ingestible resource = Ok true) /\
  (resource !! "url" = None -> is_ingestible resource = Raise (KeyError "url")).
Proof.
  unfold is_ingestible, dict_getitem. split.
  - intros url -> Hurl. simpl.
    by destruct Hurl as [-> | [-> | ->]].
  - by intros ->.
Qed.

(** Formats are compared without regard to case: writing the format of a
    resource in lower case does not change whether it is ingestible. A
    resource with another url and no format, or the format [None], is not
    ingestible. *)
Theorem ingestible_format_ignores_case resource :
  (forall format,
     is_ingestible (<["format" := JStr format]> resource)
     = is_ingestible (<["format" := JStr (Multisearch.lower format)]> resource)) /\
  (forall url,
     resource !! "url" = Some url ->
     is_datastore_only_resource url = false ->
     resource !! "format" = None \/ resource !! "format" = Some JNull ->
     is_ingestible resource = Ok false).
Proof.
  unfold is_ingestible, dict_getitem. split.
  - intros format. rewrite !lookup_insert_eq. simpl.
    rewrite !lookup_insert_ne by done. by rewrite lower_idemp.
  - intros url -> -> [-> | ->]; done.
Qed.

Lemma bucket_values_fold buckets :
  forall (d : gmap bucket_key Z) k,
    fold_left (fun d b => <[key b := doc_count b]> d) buckets d !! k
    = match last (base.filter (fun b => key b = k) buckets) with
      | Some b => Some (doc_count b)
      | None => d !! k
      end.
Proof.
  induction buckets as [|b rest IH]; intros d k; simpl; [done|].
  rewrite IH, filter_cons.
  destruct (decide (key b = k)) as [<-|Hne].
  - rewrite last_cons. destruct (last _); [done|]. apply lookup_insert_eq.
  - destruct (last _); [done|]. by apply lookup_insert_ne.
Qed.

(** The formatted facets have the facets of the aggregations and no other.
    Each carries the two detail counts of its aggregation, and its values
    give, for a bucket key, the count of the last bucket with that key; a key
    of no bucket has no value. *)
Theorem format_facets_values aggs facet :
  match aggs !! facet with
  | None => format_facets aggs !! facet = None
  | Some agg =>
      exists formatted,
        format_facets aggs !! facet = Some formatted /\
        details formatted
        = mkDetails (sum_other_doc_count agg) (doc_count_error_upper_bound agg) /\
        forall k,
          values formatted !! k
          = doc_count <$> last (base.filter (fun b => key b = k) (buckets agg))
  end.
Proof.
  unfold format_facets. rewrite lookup_fmap.
  destruct (aggs !! facet) as [agg|]; simpl; [|done].
  eexists. split_and!; [done..|]. intros k. simpl.
  unfold bucket_values. rewrite bucket_values_fold, lookup_empty.
  by destruct (last _).
Qed.

Lemma bucket_values_distinct buckets :
  NoDup (key <$> buckets) ->
  forall (d : gmap bucket_key Z),
    (forall b, b ∈ buckets -> d !! key b = None) ->
    (forall b, b ∈ buckets ->
       fold_left (fun d b => <[key b := doc_count b]> d) buckets d !! key b
       = Some (doc_count b)) /\
    size (fold_left (fun d b => <[key b := doc_count b]> d) buckets d)
    = (size d + length buckets)%nat.
Proof.
  induction buckets as [|b rest IH]; intros Hnodup d Hfresh; simpl.
  - split; [by intros b ?%elem_of_nil|lia].
  - apply NoDup_cons in Hnodup as [Hb Hrest].
    destruct (IH Hrest (<[key b := doc_count b]> d)) as [Hval Hsize].
    { intros b' Hb'. rewrite lookup_insert_ne.
      - by apply Hfresh, list_elem_of_further.
      - intros Heq. apply Hb. rewrite Heq. apply list_elem_of_fmap. by exists b'. }
    split.
    + intros b' [->|Hb']%elem_of_cons; [|by apply Hval].
      rewrite bucket_values_fold.
      destruct (last _) as [b''|] eqn:Hlast; [|apply lookup_insert_eq].
      apply last_Some_elem_of, list_elem_of_filter in Hlast as [Hkey Hin].
      destruct Hb. rewrite <- Hkey. apply list_elem_of_fmap. by exists b''.
    + rewrite Hsize, map_size_insert_None; [simpl; lia|].
      apply Hfresh, list_elem_of_here.
Qed.

(** When the keys of the buckets are distinct, as elasticsearch returns
    them, no bucket is lost: every bucket is among the values with its count,
    and there are as many values as buckets. *)
Theorem format_facets_keeps_buckets aggs facet agg :
  aggs !! facet = Some agg ->
  NoDup (key <$> buckets agg) ->
  exists formatted,
    format_facets aggs !! facet = Some formatted /\
    (forall b, b ∈ buckets agg -> values formatted !! key b = Some (doc_count b)) /\
    size (values formatted) = length (buckets agg).
Proof.
  intros Hagg Hnodup. unfold format_facets. rewrite lookup_fmap, Hagg. simpl.
  eexists. split; [done|]. simpl. unfold bucket_values.
  destruct (bucket_values_distinct (buckets agg) Hnodup ∅) as [Hval Hsize].
  { intros b _. apply lookup_empty. }
  split; [done|]. by rewrite Hsize, map_size_empty.
Qed.

(** *** Worked instances *)

Import Specimens.

(** Making [r1] private leaves [r2] public. *)
Lemma update_privacy_leaves_others_witness :
  exists c',
    update_privacy Samples.config no_package "r1" (Some true) cluster = (Ok tt, c') /\
    (("nhm-r2", "pubnhm-r2") ∈ aliases c' <-> ("nhm-r2", "pubnhm-r2") ∈ aliases cluster).
Proof.
  apply (update_privacy_leaves_others Samples.config no_package "r1" true cluster "r2").
  discriminate.
Defined.

Lemma update_resources_privacy_idempotent_witness :
  let c' := (update_resources_privacy Samples.config no_package package cluster).2 in
  update_resources_privacy Samples.config no_package package c' = (Ok tt, c').
Proof.
  apply (update_resources_privacy_idempotent Samples.config no_package package cluster).
  vm_compute; reflexivity.
Defined.

Lemma index_and_alias_names_witness :
  "r1" = "r1" /\
  get_public_alias_name Samples.config "r1" <> Utils.prefix_resource Samples.config "r1".
Proof.
  destruct (index_and_alias_names Samples.config) as (Hindex & _ & Hdiff).
  split; [apply Hindex; reflexivity | apply Hdiff].
Defined.

(** With every request answered, making [r1] public gives it its alias;
    when the second request times out, that error is what is raised. *)
Lemma update_privacy_sets_alias_witness :
  (let run := Requests.update_privacy Samples.config no_package "r1" (Some false) server in
   run.1 = Ok tt /\
   ("nhm-r1", "pubnhm-r1") ∈ aliases (Requests.cluster run.2)) /\
  (Requests.update_privacy Samples.config no_package "r1" (Some false) flaky_server).1
  = Raise (TransportError "ConnectionTimeout").
Proof.
  split.
  - pose proof (update_privacy_sets_alias Samples.config no_package "r1" false server)
      as (_ & _ & Hset).
    cbv zeta. split; [reflexivity|].
    apply (proj1 (Hset eq_refl)); [|reflexivity].
    apply (bool_decide_unpack _). vm_compute. exact I.
  - pose proof (update_privacy_sets_alias Samples.config no_package "r1" false
                  flaky_server) as (_ & [Hok|(e & Hraise & _)] & _).
    + vm_compute in Hok. discriminate Hok.
    + vm_compute in Hraise. vm_compute. exact eq_refl.
Defined.


(** The package is public and every request is answered: afterwards [r1]
    is public too. *)
Lemma update_resources_privacy_sets_all_witness :
  let run := Requests.update_resources_privacy Samples.config no_package package server in
  run.1 = Ok tt /\ ("nhm-r1", "pubnhm-r1") ∈ aliases (Requests.cluster run.2).
Proof.
  pose proof (update_resources_privacy_sets_all Samples.config no_package package
                server) as (_ & _ & _ & Hset).
  cbv zeta. split; [reflexivity|].
  apply (Hset eq_refl (mkResourceGroup [mkResource "r1"; mkResource "r2"])
           (mkResource "r1")).
  - apply list_elem_of_here.
  - apply list_elem_of_here.
  - apply (bool_decide_unpack _). vm_compute. exact I.
  - reflexivity.
Defined.

Lemma ingestible_by_url_witness :
  is_ingestible {[ "url" := JStr "https://_datastore_only_resource";
                   "format" := JInt 5 ]} = Ok true /\
  is_ingestible {[ "format" := JStr "csv" ]} = Raise (KeyError "url").
Proof.
  split.
  - apply (proj1 (ingestible_by_url _) "https://_datastore_only_resource");
      [reflexivity|]. right. right. reflexivity.
  - apply (proj2 (ingestible_by_url _)). reflexivity.
Defined.

Lemma ingestible_format_ignores_case_witness :
  is_ingestible {[ "url" := JStr "http://example.org/data";
                   "format" := JNull ]} = Ok false.
Proof.
  apply (proj2 (ingestible_format_ignores_case _) (JStr "http://example.org/data")).
  - reflexivity.
  - reflexivity.
  - right. reflexivity.
Defined.

Lemma format_facets_keeps_buckets_witness :
  exists formatted,
    format_facets {[ "genus" := genus_aggregation ]} !! "genus" = Some formatted /\
    (forall b, b ∈ buckets genus_aggregation ->
               values formatted !! key b = Some (doc_count b)) /\
    size (values formatted) = 3%nat.
Proof.
  apply (format_facets_keeps_buckets {[ "genus" := genus_aggregation ]} "genus"
           genus_aggregation).
  - vm_compute; reflexivity.
  - apply (bool_decide_unpack _). vm_compute. exact I.
Defined.

End ResourcesFacts.

(** ** More on [get_fields] *)

Module FieldCacheMore.
Import ES Utils.

#[local] Instance str_le_trans : Transitive str_le.
Proof.
  intros a b c. unfold str_le, String.leb.
  destruct (String.compare a b) eqn:Hab; [| |done];
    destruct (String.compare b c) eqn:Hbc; try done; intros _ _.
  - apply String.compare_eq_iff in Hab as ->. by rewrite Hbc.
  - apply String.compare_eq_iff in Hab as ->. by rewrite Hbc.
  - apply String.compare_eq_iff in Hbc as <-. by rewrite Hab.
  - by rewrite (Ordering.string_compare_lt_trans a b c).
Qed.

#[local] Instance str_le_total : Total str_le.
Proof. intros a b. apply String.leb_total. Qed.

Lemma StronglySorted_sublist {A} (R : relation A) (l k : list A) :
  l `sublist_of` k -> StronglySorted R k -> StronglySorted R l.
Proof.
  induction 1 as [|x l k Hsub IH|x l k Hsub IH]; intros Hsorted; [done| |].
  - apply StronglySorted_inv in Hsorted as [Hk Hx]. constructor; [by apply IH|].
    apply Forall_forall. intros y Hy. rewrite Forall_forall in Hx.
    by eapply Hx, elem_of_sublist.
  - apply StronglySorted_inv in Hsorted as [Hk _]. by apply IH.
Qed.

Lemma list_remove_sublist x l l' : list_remove x l = Ok l' -> l' `sublist_of` l.
Proof.
  revert l'. induction l as [|y l IH]; intros l' H; simpl in H; [done|].
  destruct (decide (y = x)).
  - injection H as <-. by apply sublist_cons.
  - destruct (list_remove x l) as [r|]; [|done]. injection H as <-.
    by apply sublist_skip, IH.
Qed.

Lemma kept_ids_sublist names :
  forall responses, field_id <$> kept names responses `sublist_of` names.
Proof.
  unfold kept. induction names as [|name names IH]; intros [|response responses];
    simpl; try done.
  - apply sublist_nil_l.
  - rewrite filter_cons. destruct (decide _); simpl.
    + apply sublist_skip, IH.
    + apply sublist_cons, IH.
Qed.

Section WithConfig.
Variable CONFIG : Config.
Variable DOC_TYPE : string.

Lemma data_field_names_sorted mapping names :
  data_field_names DOC_TYPE mapping = Ok names ->
  StronglySorted str_le names /\ NoDup names.
Proof.
  intros Hnames. split; [|by eapply FieldCache.data_field_names_NoDup].
  unfold data_field_names in Hnames.
  destruct (getpath mapping _) as [[]|]; simpl in Hnames; try done.
  injection Hnames as <-. apply StronglySorted_merge_sort; apply _.
Qed.

Lemma stored_fields_ordered mapping names names' responses :
  data_field_names DOC_TYPE mapping = Ok names ->
  list_remove "_id" names = Ok names' ->
  StronglySorted str_le (field_id <$> kept names' responses) /\
  NoDup (field_id <$> (mkField "_id" "integer" :: kept names' responses)).
Proof.
  intros Hnames Hrem.
  destruct (data_field_names_sorted _ _ Hnames) as [Hsorted Hnodup].
  destruct (FieldCache.removed_id_names DOC_TYPE _ _ _ Hnames Hrem)
    as (Hnodup' & Hnotin & _).
  pose proof (kept_ids_sublist names' responses) as Hsub.
  split.
  - eapply StronglySorted_sublist; [exact Hsub|].
    eapply StronglySorted_sublist; [by eapply list_remove_sublist|done].
  - simpl. apply NoDup_cons. split.
    + intros Hin. apply Hnotin. by eapply elem_of_sublist.
    + by eapply sublist_NoDup.
Qed.

Lemma reachable_ordered st :
  reachable CONFIG DOC_TYPE st ->
  forall key entry,
    field_cache st !! key = Some entry ->
    StronglySorted str_le (field_id <$> tail entry.2) /\
    NoDup (field_id <$> entry.2).
Proof.
  induction 1 as [calls0|S rid v st r st' _ IH Hcall]; intros key entry; simpl.
  - by rewrite lookup_empty.
  - apply FieldCache.get_fields_outcome in Hcall.
    inversion Hcall as [rvo cached Hrv Hc|mapping Hrv Hc Hm
       |rv mapping names names' responses Hrv Hc Hm Hn Hr Hms|e st'' Hsame];
      subst; simpl; try apply IH.
    + rewrite lookup_insert. destruct (decide _); [|apply IH].
      intros [= <-]. simpl. by eapply stored_fields_ordered.
    + rewrite Hsame. apply IH.
Qed.

(** The fields [get_fields] returns after the identity field come in
    ascending order of their names (by code point), and no name occurs
    twice in the list. *)
Theorem fields_in_name_order SEARCHER resource_id version st mapping fields st' :
  reachable CONFIG DOC_TYPE st ->
  get_fields CONFIG DOC_TYPE SEARCHER resource_id version st
  = (Ok (mapping, fields), st') ->
  StronglySorted str_le (field_id <$> tail fields) /\
  NoDup (field_id <$> fields).
Proof.
  intros Hreach Hcall.
  pose proof (reachable_ordered st Hreach) as Hinv.
  apply FieldCache.get_fields_outcome in Hcall.
  inversion Hcall as [rvo cached Hrv Hc|mapping' Hrv Hc Hm
     |rv mapping' names names' responses Hrv Hc Hm Hn Hr Hms|]; subst.
  - apply (Hinv _ _ Hc).
  - simpl. split; [constructor|]. apply NoDup_singleton.
  - by eapply stored_fields_ordered.
Qed.

(** A call of [get_fields] either leaves the cache as it is, or adds one
    entry: the result it returns, under the resource and the rounded version
    of the call, where there was none. A call that raises caches nothing. *)
Theorem call_adds_at_most_its_entry SEARCHER resource_id version st r st' :
  get_fields CONFIG DOC_TYPE SEARCHER resource_id version st = (r, st') ->
  field_cache st' = field_cache st \/
  exists rounded_version entry,
    r = Ok entry /\
    get_rounded_versions SEARCHER [prefix_resource CONFIG resource_id] version
      !! prefix_resource CONFIG resource_id = Some (Some rounded_version) /\
    field_cache st !! (resource_id, Some rounded_version) = None /\
    field_cache st'
    = <[(resource_id, Some rounded_version) := entry]> (field_cache st).
Proof.
  intros Hcall. apply FieldCache.get_fields_outcome in Hcall.
  inversion Hcall as [rvo cached Hrv Hc|mapping Hrv Hc Hm
     |rv mapping names names' responses Hrv Hc Hm Hn Hr Hms|e st'' Hsame];
    subst; simpl; [by left|by left| |by left].
  right. by eexists _, _.
Qed.

Lemma list_remove_missing x l :
  x ∉ l -> list_remove x l = Raise (ValueError "list.remove(x): x not in list").
Proof.
  induction l as [|y l IH]; intros Hnotin; simpl; [done|].
  apply not_elem_of_cons in Hnotin as [Hne Hnotin].
  rewrite decide_False by done. by rewrite IH.
Qed.

(** A mapping that declares no ['_id'] among its data fields makes
    [get_fields] raise a [ValueError]: after the mapping has been read, with
    no existence search sent and nothing cached. *)
Theorem mapping_without_id_is_an_error SEARCHER resource_id version st
    rounded_version mapping names :
  get_rounded_versions SEARCHER [prefix_resource CONFIG resource_id] version
    !! prefix_resource CONFIG resource_id = Some (Some rounded_version) ->
  field_cache st !! (resource_id, Some rounded_version) = None ->
  indices_get_mapping (elasticsearch SEARCHER) (prefix_resource CONFIG resource_id)
    !! prefix_resource CONFIG resource_id = Some mapping ->
  data_field_names DOC_TYPE mapping = Ok names ->
  "_id" ∉ names ->
  get_fields CONFIG DOC_TYPE SEARCHER resource_id version st
  = (Raise (ValueError "list.remove(x): x not in list"),
     mkState (field_cache st)
       (calls st ++ [GetRoundedVersions [prefix_resource CONFIG resource_id] version;
                     GetMapping (prefix_resource CONFIG resource_id)])).
Proof.
  intros Hrv Hmiss Hmap Hnames Hnotin.
  unfold get_fields, bind, lift, log, gets, modify, ret, dict_getitem. simpl.
  rewrite Hrv. simpl. rewrite Hmiss. simpl. rewrite Hmap. simpl.
  rewrite Hnames. simpl. rewrite (list_remove_missing _ _ Hnotin). simpl.
  by rewrite <- app_assoc.
Qed.

(** [get_fields] never raises an [IndexError] of its own: however many
    responses the backend sends for the existence searches, reading the name
    that goes with a response does not run past the names. *)
Theorem no_index_error SEARCHER resource_id version st st' :
  (forall indexes searches,
     msearch (elasticsearch SEARCHER) indexes searches <> Raise IndexError) ->
  get_fields CONFIG DOC_TYPE SEARCHER resource_id version st
  <> (Raise IndexError, st').
Proof.
  intros Hbackend.
  unfold get_fields, bind, lift, log, gets, modify, ret, cache_store,
    dict_getitem, execute. simpl.
  destruct (get_rounded_versions SEARCHER _ version !! _)
    as [rounded_version|]; simpl; [|done].
  destruct (field_cache st !! (resource_id, rounded_version)); simpl; [done|].
  destruct (indices_get_mapping _ _ !! _) as [mapping|]; simpl; [|done].
  destruct rounded_version as [rounded_version|]; simpl; [|done].
  destruct (data_field_names DOC_TYPE mapping) as [names|e] eqn:Hnames; simpl.
  2: { unfold data_field_names in Hnames.
       intros [= ->].
       destruct (getpath mapping _) as [j|e] eqn:Hpath.
       - by destruct j.
       - injection Hnames as ->. revert Hpath. generalize mapping.
         generalize ["mappings"; DOC_TYPE; "properties"; "data"; "properties"].
         induction l as [|k l IH]; intros j; simpl; [done|].
         destruct j; simpl; try done. unfold dict_getitem.
         destruct (kvs !! k); [apply IH|done]. }
  destruct (list_remove "_id" names) as [names'|e] eqn:Hrem; simpl.
  2: { intros [= ->]. revert Hrem. clear. induction names as [|y l IH]; simpl; [done|].
       destruct (decide _); [done|]. destruct (list_remove "_id" l); [done|].
       intros [= ->]. by apply IH. }
  rewrite FieldCache.add_field_searches_fmap. simpl.
  destruct (msearch _ _ _) as [responses|e] eqn:Hms; simpl.
  2: { intros [= ->]. by eapply Hbackend. }
  rewrite length_fmap.
  rewrite FieldCache.collect_fields_kept by (rewrite length_take; simpl; lia).
  done.
Qed.

End WithConfig.

(** *** Worked instances *)

Import Samples.

Lemma fields_in_name_order_witness :
  StronglySorted str_le (field_id <$> tail specimen_fields) /\
  NoDup (field_id <$> specimen_fields).
Proof.
  apply (fields_in_name_order config "_doc" (searcher (Some 5) specimen_mapping)
           "r1" None start specimen_mapping specimen_fields after_first_call).
  - apply reachable_start.
  - vm_compute; reflexivity.
Defined.

Lemma call_adds_at_most_its_entry_witness :
  field_cache after_first_call = field_cache start \/
  exists rounded_version entry,
    Ok (specimen_mapping, specimen_fields) = Ok entry /\
    get_rounded_versions (searcher (Some 5) specimen_mapping)
      [prefix_resource config "r1"] None !! prefix_resource config "r1"
    = Some (Some rounded_version) /\
    field_cache start !! ("r1", Some rounded_version) = None /\
    field_cache after_first_call
    = <[("r1", Some rounded_version) := entry]> (field_cache start).
Proof.
  apply (call_adds_at_most_its_entry config "_doc"
           (searcher (Some 5) specimen_mapping) "r1" None start).
  vm_compute; reflexivity.
Defined.

Lemma mapping_without_id_is_an_error_witness :
  get_fields config "_doc" (searcher (Some 5) (mapping_of ["name"; "age"])) "r1"
    None start
  = (Raise (ValueError "list.remove(x): x not in list"),
     mkState ∅ [GetRoundedVersions ["nhm-r1"] None; GetMapping "nhm-r1"]).
Proof.
  apply (mapping_without_id_is_an_error config "_doc"
           (searcher (Some 5) (mapping_of ["name"; "age"])) "r1" None start 5
           (mapping_of ["name"; "age"]) ["age"; "name"]).
  - vm_compute; reflexivity.
  - vm_compute; reflexivity.
  - vm_compute; reflexivity.
  - vm_compute; reflexivity.
  - apply (bool_decide_unpack _). vm_compute. exact I.
Defined.

Lemma no_index_error_witness :
  get_fields config "_doc" (searcher (Some 5) specimen_mapping) "r1" None start
  <> (Raise IndexError, start).
Proof.
  apply (no_index_error config "_doc" (searcher (Some 5) specimen_mapping) "r1"
           None start start).
  intros indexes searches. discriminate.
Defined.

End FieldCacheMore.

(** ** More on the multisearch actions *)

Module ActionsMore.
Import ES Multisearch.

Section WithEnv.
Variables Context Fields Guess datetime : Type.
Variable env : Env Context Fields Guess datetime.

Ltac run :=
  unfold Multisearch.datastore_multisearch, Multisearch.datastore_guess_fields,
    try_validation, bind, lift, ret, raise, gets, new_timer, add_event, log,
    log_query, modify; simpl.

(** The three ways the start of an action can go: the query is refused, no
    resource is left to search, or the search is prepared. *)
Lemma start_cases context query query_version resource_ids
    resource_ids_and_versions :
  (exists e,
     validate_query env (default (JObj ∅) query)
       (default (get_latest_query_version env) query_version) = Raise e) \/
  (validate_query env (default (JObj ∅) query)
     (default (get_latest_query_version env) query_version) = Ok tt /\
   exists e,
     translate_query env (default (JObj ∅) query)
       (default (get_latest_query_version env) query_version) = Raise e) \/
  (validate_query env (default (JObj ∅) query)
     (default (get_latest_query_version env) query_version) = Ok tt /\
   exists search allowed skipped,
     translate_query env (default (JObj ∅) query)
       (default (get_latest_query_version env) query_version) = Ok search /\
     determine_resources_to_search env context resource_ids
       resource_ids_and_versions = (allowed, skipped)).
Proof.
  destruct (validate_query env _ _) as [[]|e]; [|left; by eexists].
  right. destruct (translate_query env _ _) as [search|e]; [|left; by eauto].
  right. split; [done|].
  destruct (determine_resources_to_search env context resource_ids
              resource_ids_and_versions) as [allowed skipped].
  by eexists _, _, _.
Qed.

(** A query that the schema refuses, or whose schema version is unknown,
    makes both actions raise a validation error with the message of the
    schema error, before the resources are looked at: no search reaches the
    backend and nothing is written to the query log. *)
Theorem schema_errors_are_validation_errors context query query_version version
    resource_ids resource_ids_and_versions st message :
  let q := default (JObj ∅) query in
  let v := default (get_latest_query_version env) query_version in
  let refused (r : exn) :=
    r = JsonSchemaValidationError message \/
    r = InvalidQuerySchemaVersionError message in
  (exists r, refused r /\
     (validate_query env q v = Raise r \/
      (validate_query env q v = Ok tt /\ translate_query env q v = Raise r))) ->
  (forall size after top_resources timings,
     let run :=
       datastore_multisearch env context query query_version version resource_ids
         resource_ids_and_versions size after top_resources timings st in
     run.1 = Raise (ValidationError message) /\
     calls run.2 = calls st /\ query_log run.2 = query_log st) /\
  (forall size ignore_groups,
     datastore_guess_fields env context query query_version version resource_ids
       resource_ids_and_versions size ignore_groups st
     = (Raise (ValidationError message), st)).
Proof.
  intros q v refused (r & Hr & Hfail). split.
  - intros size after top_resources timings. run. fold q v.
    destruct Hfail as [->|[-> ->]]; simpl; by destruct Hr as [-> | ->].
  - intros size ignore_groups. run. fold q v.
    destruct Hfail as [->|[-> ->]]; simpl; destruct Hr as [-> | ->]; simpl;
      by destruct st.
Qed.

(** [datastore_multisearch] writes to the query log exactly when it returns
    a response: then one entry, the query (the empty query when none was
    given) as a "multisearch"; a call that raises logs nothing. *)
Theorem query_logged_when_answered context query query_version version
    resource_ids resource_ids_and_versions size after top_resources timings st :
  let run :=
    datastore_multisearch env context query query_version version resource_ids
      resource_ids_and_versions size after top_resources timings st in
  match run.1 with
  | Ok _ => query_log run.2 = query_log st ++ [(default (JObj ∅) query, "multisearch")]
  | Raise _ => query_log run.2 = query_log st
  end.
Proof.
  destruct (start_cases context query query_version resource_ids
              resource_ids_and_versions)
    as [[e Hv]|[[Hv [e Ht]]|(Hv & search & allowed & skipped & Ht & Hres)]].
  - run. rewrite Hv. simpl. by destruct e.
  - run. rewrite Hv. simpl. rewrite Ht. by destruct e.
  - destruct (decide (allowed = [])) as [->|Hallowed].
    { run. rewrite Hv. simpl. rewrite Ht. simpl. by rewrite Hres. }
    simpl.
    rewrite (Actions.multisearch_run _ _ _ _ _ _ _ _ _ _ _ _ _ _ _ _ search allowed
               skipped) by done.
    simpl. destruct (msearch _ _ _) as [[|result responses]|e]; [done| |done].
    destruct (calculate_after _ _) as [[hits next_after]|e]; [|done].
    destruct top_resources; [|done].
    by destruct (agg_buckets result !! "indexes").
Qed.

(** What reaches the backend keeps what the query translated to: the
    translated query and its filters, with the version filter added as the
    last filter; the indexes searched are those already named by the
    translation and then the index of every resource allowed, in order. A
    cursor given is passed on as it is. *)
Theorem search_keeps_the_translated_query context query query_version version
    resource_ids resource_ids_and_versions size after top_resources timings st
    search allowed skipped :
  validate_query env (default (JObj ∅) query)
    (default (get_latest_query_version env) query_version) = Ok tt ->
  translate_query env (default (JObj ∅) query)
    (default (get_latest_query_version env) query_version) = Ok search ->
  determine_resources_to_search env context resource_ids resource_ids_and_versions
    = (allowed, skipped) ->
  allowed <> [] ->
  exists sent,
    calls (datastore_multisearch env context query query_version version
             resource_ids resource_ids_and_versions size after top_resources
             timings st).2
    = calls st ++ [Execute (mkMultiSearch [] [sent])] /\
    ES.query sent = ES.query search /\
    filters sent
    = filters search
        ++ [determine_version_filter env version allowed resource_ids_and_versions] /\
    index sent = index search ++ (prefix_resource env <$> allowed) /\
    extra_search_after sent
    = match after with Some a => Some a | None => extra_search_after search end /\
    aggs sent
    = if top_resources then aggs search ++ [("indexes", "terms", "_index")]
      else aggs search.
Proof.
  intros Hvalid Htrans Hres Hallowed. eexists. split.
  - by apply (Actions.multisearch_sent_call _ _ _ _ _ _ _ _ _ _ _ _ _ _ _ _
                search allowed skipped).
  - unfold Multisearch.search_sent. by destruct after, top_resources.
Qed.

(** With [timings] asked for, the response that is returned carries the
    timings of the nine stages of this call, in order, whatever the plugins
    made of the response and whatever an earlier call timed. *)
Theorem timings_list_the_stages context query query_version version resource_ids
    resource_ids_and_versions size after top_resources st response :
  (datastore_multisearch env context query query_version version resource_ids
     resource_ids_and_versions size after top_resources true st).1 = Ok response ->
  Multisearch.timings response
  = Some (timer_to_dict env
            ["validate"; "translate"; "determine_resources"; "version_filter";
             "search_params"; "run"; "response"; "response_modifiers"; "log"]).
Proof.
  destruct (start_cases context query query_version resource_ids
              resource_ids_and_versions)
    as [[e Hv]|[[Hv [e Ht]]|(Hv & search & allowed & skipped & Ht & Hres)]].
  - run. rewrite Hv. simpl. by destruct e.
  - run. rewrite Hv. simpl. rewrite Ht. by destruct e.
  - destruct (decide (allowed = [])) as [->|Hallowed].
    { run. rewrite Hv. simpl. rewrite Ht. simpl. by rewrite Hres. }
    rewrite (Actions.multisearch_run _ _ _ _ _ _ _ _ _ _ _ _ _ _ _ _ search allowed
               skipped) by done.
    simpl. destruct (msearch _ _ _) as [[|result responses]|e]; [done| |done].
    destruct (calculate_after _ _) as [[hits next_after]|e]; [|done].
    destruct top_resources; simpl.
    + destruct (agg_buckets result !! "indexes"); simpl; [|done].
      by intros [= <-].
    + by intros [= <-].
Qed.

(** The response assembled from the backend's answer: its total is the
    total the backend counted (not the number of records returned), and it
    reports the resources that were skipped. With [top_resources] the
    buckets of the "indexes" aggregation are listed in the order received,
    each under the name of its resource; if the backend's answer has no such
    aggregation the call fails with a [KeyError]. *)
Theorem response_total_and_top_resources context query query_version version
    resource_ids resource_ids_and_versions size after top_resources timings st
    search allowed skipped result others hits next_after :
  validate_query env (default (JObj ∅) query)
    (default (get_latest_query_version env) query_version) = Ok tt ->
  translate_query env (default (JObj ∅) query)
    (default (get_latest_query_version env) query_version) = Ok search ->
  determine_resources_to_search env context resource_ids resource_ids_and_versions
    = (allowed, skipped) ->
  allowed <> [] ->
  msearch (ES_CLIENT env) []
    [search_sent env search allowed version resource_ids_and_versions size after
       top_resources] = Ok (result :: others) ->
  calculate_after result (clamp 1000 size) = Ok (hits, next_after) ->
  let run :=
    datastore_multisearch env context query query_version version resource_ids
      resource_ids_and_versions size after top_resources timings st in
  match (if top_resources then agg_buckets result !! "indexes" else Some []) with
  | None => run.1 = Raise (KeyError "indexes")
  | Some buckets =>
      exists assembled,
        run.1 = Ok (finish env timings (timer run.2) assembled) /\
        total assembled = hits_total result /\
        skipped_resources assembled = skipped /\
        Multisearch.top_resources assembled
        = if top_resources
          then Some ((fun bucket => (trim_index_name env bucket.1, bucket.2))
                       <$> buckets)
          else None
  end.
Proof.
  intros Hvalid Htrans Hres Hallowed Hms Hafter run. subst run.
  rewrite (Actions.multisearch_run _ _ _ _ _ _ _ _ _ _ _ _ _ _ _ _ search allowed
             skipped) by done.
  simpl. rewrite Hms, Hafter.
  destruct top_resources; simpl.
  - destruct (agg_buckets result !! "indexes"); simpl; [|done].
    eexists. by split_and!.
  - eexists. by split_and!.
Qed.

Lemma one_name_lowered (groups : list string) name :
  groups <> [] ->
  Forall (fun g => lower g = name) groups ->
  (list_to_set (lower <$> groups) : gset string) = {[ name ]}.
Proof.
  intros Hsome Hall. induction Hall as [|g rest Hg Hrest IH]; [done|].
  rewrite fmap_cons, list_to_set_cons, Hg.
  destruct (decide (rest = [])) as [->|Hrest'].
  - simpl. by rewrite (right_id_L ∅ (∪)).
  - rewrite IH by done. by rewrite (idemp_L (∪)).
Qed.

(** The names of [ignore_groups] are put in lower case and collected in a
    set before they are ignored, so a name is ignored once however often
    and in whatever mix of capitals and small letters it is listed: a list
    that holds spellings of one name only does what the list of that name
    in lower case does. The names are taken to be ASCII, where putting in
    lower case is what [lower] does. *)
Theorem ignore_groups_one_name_many_spellings context query query_version version
    resource_ids resource_ids_and_versions size st groups name :
  groups <> [] ->
  Forall (fun g => OtherActions.is_ascii g = true /\ lower g = name) groups ->
  datastore_guess_fields env context query query_version version resource_ids
    resource_ids_and_versions size (Some groups) st
  = datastore_guess_fields env context query query_version version resource_ids
      resource_ids_and_versions size (Some [name]) st.
Proof.
  intros Hsome Hall.
  assert (Forall (fun g => lower g = name) groups) as Hlower.
  { eapply Forall_impl; [exact Hall|]. by intros g [_ ?]. }
  assert (lower name = name) as Hname.
  { destruct groups as [|g rest]; [done|].
    apply Forall_cons in Hlower as [<- _]. apply ResourcesFacts.lower_idemp. }
  unfold Multisearch.datastore_guess_fields.
  rewrite (one_name_lowered groups name) by done.
  rewrite (one_name_lowered [name] name); [done|done|].
  by apply Forall_singleton.
Qed.

(** [datastore_guess_fields] never asks the backend for records: every
    search it hands on (to find the resources searched, and to the two field
    selectors) has size 0, and it executes no search itself. *)
Theorem guess_fields_searches_ask_for_no_records context query query_version
    version resource_ids resource_ids_and_versions size ignore_groups st c :
  c ∈ drop (length (calls st))
        (calls (datastore_guess_fields env context query query_version version
                  resource_ids resource_ids_and_versions size ignore_groups st).2) ->
  match c with
  | Execute _ => False
  | FindSearchedResources search _
  | GetSingleResourceFields _ _ search _
  | SelectFields search _ => extra_size search = Some 0
  end.
Proof.
  destruct (start_cases context query query_version resource_ids
              resource_ids_and_versions)
    as [[e Hv]|[[Hv [e Ht]]|(Hv & search & allowed & skipped & Ht & Hres)]].
  - run. rewrite Hv. simpl. destruct e; simpl; rewrite drop_all;
      by intros ?%elem_of_nil.
  - run. rewrite Hv. simpl. rewrite Ht. destruct e; simpl; rewrite drop_all;
      by intros ?%elem_of_nil.
  - destruct (decide (allowed = [])) as [->|Hallowed].
    { run. rewrite Hv. simpl. rewrite Ht. simpl. rewrite Hres. simpl.
      rewrite drop_all. by intros ?%elem_of_nil. }
    rewrite (Actions.guess_fields_run _ _ _ _ _ _ _ _ _ _ _ _ _ _ search allowed
               skipped) by done.
    simpl.
    destruct (find_searched_resources env _ _) as [|resource_id [|second rest]];
      simpl.
    + rewrite <- app_assoc, drop_app_length. simpl.
      intros [->|[->|[]%elem_of_nil]%elem_of_cons]%elem_of_cons; done.
    + destruct resource_ids_and_versions as [versions|]; simpl.
      * unfold dict_getitem. destruct (versions !! resource_id); simpl.
        -- rewrite <- app_assoc, drop_app_length. simpl.
           intros [->|[->|[]%elem_of_nil]%elem_of_cons]%elem_of_cons; done.
        -- rewrite drop_app_length.
           intros [->|[]%elem_of_nil]%elem_of_cons; done.
      * rewrite <- app_assoc, drop_app_length. simpl.
        intros [->|[->|[]%elem_of_nil]%elem_of_cons]%elem_of_cons; done.
    + rewrite <- app_assoc, drop_app_length. simpl.
      intros [->|[->|[]%elem_of_nil]%elem_of_cons]%elem_of_cons; done.
Qed.

End WithEnv.

(** *** Worked instances *)

Import Samples Specimens.

Lemma schema_errors_are_validation_errors_witness :
  (datastore_multisearch refusing_env tt None None None None None 10 None false
     false idle).1
  = Raise (ValidationError "'search' is not of type 'object'") /\
  datastore_guess_fields refusing_env tt None None None None None 10 None idle
  = (Raise (ValidationError "'search' is not of type 'object'"), idle).
Proof.
  destruct (schema_errors_are_validation_errors unit unit (Z * Z)%type Z
              refusing_env tt None None None None None idle
              "'search' is not of type 'object'") as [Hsearch Hguess].
  { exists (JsonSchemaValidationError "'search' is not of type 'object'").
    split; left; reflexivity. }
  split.
  - exact (proj1 (Hsearch 10 None false false)).
  - exact (Hguess 10 None).
Defined.

Lemma search_keeps_the_translated_query_witness :
  exists sent,
    calls (datastore_multisearch (env three_hits) tt None None None
             (Some ["r2"; "r1"]) None 2 (Some [JInt 1000; JInt 7; JStr "nhm-r2"])
             false false idle).2
    = calls idle ++ [Execute (mkMultiSearch [] [sent])] /\
    ES.query sent = JNull /\
    filters sent = [Raw JNull] /\
    index sent = ["nhm-r2"; "nhm-r1"] /\
    extra_search_after sent = Some [JInt 1000; JInt 7; JStr "nhm-r2"] /\
    aggs sent = [].
Proof.
  exact (search_keeps_the_translated_query unit unit (Z * Z)%type Z (env three_hits)
           tt None None None (Some ["r2"; "r1"]) None 2
           (Some [JInt 1000; JInt 7; JStr "nhm-r2"]) false false idle
           new_search ["r2"; "r1"] [] eq_refl eq_refl eq_refl ltac:(discriminate)).
Defined.

Lemma timings_list_the_stages_witness :
  exists response,
    (datastore_multisearch (env three_hits) tt None None None None None 2 None
       false true (mkState ["left over"] [] [])).1 = Ok response /\
    Multisearch.timings response
    = Some (JList (JStr <$> ["validate"; "translate"; "determine_resources";
                             "version_filter"; "search_params"; "run"; "response";
                             "response_modifiers"; "log"])).
Proof.
  assert (exists response,
            (datastore_multisearch (env three_hits) tt None None None None None 2
               None false true (mkState ["left over"] [] [])).1 = Ok response)
    as [response Hrun] by (eexists; vm_compute; reflexivity).
  exists response. split; [exact Hrun|].
  exact (timings_list_the_stages unit unit (Z * Z)%type Z (env three_hits) tt None
           None None None None 2 None false (mkState ["left over"] [] [])
           response Hrun).
Defined.

Lemma response_total_and_top_resources_witness :
  let run :=
    datastore_multisearch (env_on counting_indexes) tt None None None None None 2
      None true false idle in
  exists assembled,
    run.1 = Ok (finish (env_on counting_indexes) false (timer run.2) assembled) /\
    total assembled = 40 /\
    skipped_resources assembled = [] /\
    Multisearch.top_resources assembled = Some [("r1", 2); ("r2", 1)].
Proof.
  exact (response_total_and_top_resources unit unit (Z * Z)%type Z
           (env_on counting_indexes) tt None None None None None 2 None true false
           idle new_search ["r1"; "r2"] []
           (ES.mkResponse three_hits 40 {[ "indexes" := [("nhm-r1", 2); ("nhm-r2", 1)] ]})
           [] [hit 9 "nhm-r1"; hit 7 "nhm-r2"] (Some [JInt 1000; JInt 7; JStr "nhm-r2"])
           eq_refl eq_refl eq_refl ltac:(discriminate) eq_refl eq_refl).
Defined.

Lemma ignore_groups_one_name_many_spellings_witness :
  datastore_guess_fields (env three_hits) tt None None None None None 10
    (Some ["Code"; "code"; "CODE"; "code"]) idle
  = datastore_guess_fields (env three_hits) tt None None None None None 10
      (Some ["code"]) idle.
Proof.
  apply (ignore_groups_one_name_many_spellings unit unit (Z * Z)%type Z
           (env three_hits) tt None None None None None 10 idle
           ["Code"; "code"; "CODE"; "code"] "code").
  - discriminate.
  - apply (bool_decide_unpack _). vm_compute. exact I.
Defined.

Lemma guess_fields_searches_ask_for_no_records_witness :
  extra_size (guess_search (env three_hits) new_search ["r1"; "r2"] None None)
  = Some 0.
Proof.
  apply (guess_fields_searches_ask_for_no_records unit unit (Z * Z)%type Z
           (env three_hits) tt None None None None None 10 None idle
           (FindSearchedResources
              (guess_search (env three_hits) new_search ["r1"; "r2"] None None)
              ["r1"; "r2"])).
  vm_compute. apply list_elem_of_here.
Defined.

End ActionsMore.

(** ** Slugs, query hashes and field names *)

Module OtherActionsFacts.
Import OtherActions.

Lemma contains_empty s : contains "" s = true.
Proof. by destruct s. Qed.

Lemma prefix_has_upper t :
  forall s, String.prefix t s = true -> has_upper t = true -> has_upper s = true.
Proof.
  induction t as [|a t IH]; intros [|b s]; simpl; try done.
  destruct (Ascii.ascii_dec a b) as [->|]; [|done].
  intros Hprefix [Ha|Ht]%orb_true_iff; apply orb_true_iff; [by left|right].
  by apply IH.
Qed.

Lemma contains_unfold t s :
  contains t s
  = String.prefix t s
    || match s with
       | EmptyString => false
       | String _ rest => contains t rest
       end.
Proof. by destruct s. Qed.

Lemma contains_has_upper t s :
  contains t s = true -> has_upper t = true -> has_upper s = true.
Proof.
  induction s as [|b s IH]; rewrite contains_unfold.
  - rewrite orb_false_r. apply prefix_has_upper.
  - intros [Hprefix|Hrest]%orb_true_iff Hupper.
    + by apply (prefix_has_upper t (String b s)).
    + simpl. apply orb_true_iff. right. by apply IH.
Qed.

Lemma lower_ascii_not_upper c : is_upper (Multisearch.lower_ascii c) = false.
Proof.
  unfold is_upper, Multisearch.lower_ascii.
  destruct ((65 <=? Ascii.N_of_ascii c)%N && (Ascii.N_of_ascii c <=? 90)%N) eqn:Hup;
    [|done].
  apply andb_true_iff in Hup as [H1%N.leb_le H2%N.leb_le].
  rewrite Ascii.N_ascii_embedding by lia.
  apply andb_false_iff. right. apply N.leb_gt. lia.
Qed.

Lemma lower_has_no_upper s : has_upper (Multisearch.lower s) = false.
Proof.
  induction s as [|c s IH]; simpl; [done|]. by rewrite lower_ascii_not_upper, IH.
Qed.

Lemma upper_text_matches_nothing text field_path :
  has_upper text = true -> path_matches text true field_path = false.
Proof.
  intros Hupper. unfold path_matches.
  induction field_path as [|part rest IH]; simpl; [done|].
  rewrite IH, orb_false_r.
  destruct (contains text (Multisearch.lower part)) eqn:Hc; [|done].
  apply contains_has_upper in Hc; [|done]. by rewrite lower_has_no_upper in Hc.
Qed.

Lemma empty_text_matches text lowercase field_path :
  text = "" -> field_path <> [] -> path_matches text lowercase field_path = true.
Proof.
  intros -> Hne. destruct field_path as [|part rest]; [done|].
  unfold path_matches. simpl. by rewrite contains_empty.
Qed.

Section WithHelpers.
Variables Context Slug : Type.
Variable helpers : Helpers Context Slug.

Lemma scan_fields_found text lowercase resource_id data_fields :
  forall triples fields fields',
    found_from text lowercase triples fields ->
    scan_fields text lowercase resource_id data_fields fields = Ok fields' ->
    found_from text lowercase
      (triples ++ ((fun field => (resource_id, field)) <$> data_fields)) fields'.
Proof.
  induction data_fields as [|[field_path config] rest IH];
    intros triples fields fields' Hinv Hscan; simpl in *.
  - injection Hscan as <-. by rewrite app_nil_r.
  - destruct Hinv as (Hne & Hsound & Hcomplete).
    destruct (path_matches text lowercase field_path) eqn:Hmatch.
    + destruct (field_info config) as [info|e] eqn:Hinfo; [|done].
      apply (IH (triples ++ [(resource_id, (field_path, config))])) in Hscan;
        [by rewrite <- app_assoc in Hscan|]. unfold found_from. split_and!.
      * intros name per. rewrite lookup_insert.
        destruct (decide _) as [<-|]; [|by apply Hne].
        intros [= <-]. exists resource_id. rewrite lookup_insert_eq. by eexists.
      * intros name per rid info'. rewrite lookup_insert.
        destruct (decide _) as [<-|Hname].
        -- intros [= <-]. rewrite lookup_insert.
           destruct (decide _) as [<-|Hrid].
           ++ intros [= <-]. exists field_path, config.
              split_and!; try done. apply elem_of_app. right.
              apply list_elem_of_here.
           ++ intros Hper.
              destruct (fields !! String.concat "." field_path) as [per0|] eqn:Hper0;
                simpl in Hper; [|by rewrite lookup_empty in Hper].
              destruct (Hsound _ _ _ _ Hper0 Hper) as (p & cfg & Hin & ?).
              exists p, cfg. split; [|done]. apply elem_of_app. by left.
        -- intros Hfields Hper.
           destruct (Hsound _ _ _ _ Hfields Hper) as (p & cfg & Hin & ?).
           exists p, cfg. split; [|done]. apply elem_of_app. by left.
      * intros rid p cfg [Hin|Hin]%elem_of_app Hp.
        -- destruct (Hcomplete _ _ _ Hin Hp) as (per & Hper & Hrid).
           rewrite lookup_insert. destruct (decide _) as [Heq|Hne'].
           ++ eexists. split; [done|]. rewrite Heq, Hper. simpl.
              rewrite lookup_insert. by destruct (decide _).
           ++ by exists per.
        -- apply list_elem_of_singleton in Hin. injection Hin as -> -> ->.
           rewrite lookup_insert_eq. eexists. split; [done|].
           rewrite lookup_insert_eq. by eexists.
    + apply (IH (triples ++ [(resource_id, (field_path, config))])) in Hscan;
        [by rewrite <- app_assoc in Hscan|]. unfold found_from. split_and!.
      * done.
      * intros name per rid info' Hfields Hper.
        destruct (Hsound _ _ _ _ Hfields Hper) as (p & cfg & Hin & ?).
        exists p, cfg. split; [|done]. apply elem_of_app. by left.
      * intros rid p cfg [Hin|Hin]%elem_of_app Hp; [by eapply Hcomplete|].
        apply list_elem_of_singleton in Hin. injection Hin as -> -> ->.
        by rewrite Hmatch in Hp.
Qed.

Lemma scan_mappings_found text lowercase mappings :
  forall triples fields fields',
    found_from text lowercase triples fields ->
    scan_mappings helpers text lowercase mappings fields = Ok fields' ->
    found_from text lowercase (triples ++ data_fields_of helpers mappings) fields'.
Proof.
  induction mappings as [|[index mapping] rest IH];
    intros triples fields fields' Hinv Hscan; simpl in *.
  - injection Hscan as <-. unfold data_fields_of. simpl. by rewrite app_nil_r.
  - destruct (scan_fields _ _ _ _ _) as [fields1|e] eqn:Hone; [|done].
    apply (scan_fields_found _ _ _ _ triples) in Hone; [|done].
    apply (IH _ _ _ Hone) in Hscan.
    unfold data_fields_of in *. simpl. by rewrite app_assoc.
Qed.

(** What [datastore_field_autocomplete] returns: a field name is listed
    exactly when it is the dotted path of a data field, of one of the
    mappings read, with a part that contains the text (the part put in
    lower case first when [lowercase] is set); under the name, a resource is
    listed exactly when it has such a field, with the type details of its
    config; and [count] is the number of names. When [lowercase] is set the
    field names are taken to be ASCII, where putting in lower case is what
    [Multisearch.lower] does. *)
Theorem autocomplete_lists_the_matching_fields context text resource_ids
    lowercase result :
  let triples :=
    data_fields_of helpers
      (get_mappings helpers
         (get_available_datastore_resources helpers context resource_ids)) in
  datastore_field_autocomplete helpers context text resource_ids lowercase
  = Ok result ->
  (lowercase = true ->
   Forall (fun triple => Forall (fun part => is_ascii part = true) triple.2.1)
     triples) ->
  count result = size (fields result) /\
  (forall name,
     is_Some (fields result !! name) <->
     exists resource_id field_path config,
       (resource_id, (field_path, config)) ∈ triples /\
       path_matches text lowercase field_path = true /\
       String.concat "." field_path = name) /\
  (forall name per_resource resource_id,
     fields result !! name = Some per_resource ->
     (is_Some (per_resource !! resource_id) <->
      exists field_path config,
        (resource_id, (field_path, config)) ∈ triples /\
        path_matches text lowercase field_path = true /\
        String.concat "." field_path = name) /\
     forall info,
       per_resource !! resource_id = Some info ->
       exists field_path config,
         (resource_id, (field_path, config)) ∈ triples /\
         String.concat "." field_path = name /\
         field_info config = Ok info).
Proof.
  intros triples Hrun _. revert Hrun. subst triples.
  unfold datastore_field_autocomplete.
  destruct (get_available_datastore_resources helpers context resource_ids)
    as [|first others]; [done|].
  destruct (scan_mappings _ _ _ _ _) as [found|e] eqn:Hscan; [|done].
  intros [= <-]. cbv zeta. simpl.
  apply (scan_mappings_found _ _ _ []) in Hscan.
  2: { unfold found_from. split_and!; try (intros *; by rewrite lookup_empty).
       by intros ? ? ? ?%elem_of_nil. }
  simpl in Hscan. destruct Hscan as (Hne & Hsound & Hcomplete).
  split_and!; [done| |].
  - intros name. split.
    + intros [per Hper]. destruct (Hne _ _ Hper) as [rid [info Hinfo]].
      destruct (Hsound _ _ _ _ Hper Hinfo) as (p & cfg & ? & ? & ? & _).
      by exists rid, p, cfg.
    + intros (rid & p & cfg & Hin & Hp & <-).
      destruct (Hcomplete _ _ _ Hin Hp) as (per & Hper & _). by eexists.
  - intros name per rid Hper. split.
    + split.
      * intros [info Hinfo].
        destruct (Hsound _ _ _ _ Hper Hinfo) as (p & cfg & ? & ? & ? & _).
        by exists p, cfg.
      * intros (p & cfg & Hin & Hp & <-).
        destruct (Hcomplete _ _ _ Hin Hp) as (per' & Hper' & Hrid).
        rewrite Hper in Hper'. by injection Hper' as <-.
    + intros info Hinfo.
      destruct (Hsound _ _ _ _ Hper Hinfo) as (p & cfg & ? & ? & ? & ?).
      by exists p, cfg.
Qed.

(** With the empty text every data field is listed: the empty string is
    part of every name. *)
Theorem autocomplete_empty_text_lists_all context resource_ids lowercase result
    resource_id field_path config :
  datastore_field_autocomplete helpers context "" resource_ids lowercase
  = Ok result ->
  (resource_id, (field_path, config))
    ∈ data_fields_of helpers
        (get_mappings helpers
           (get_available_datastore_resources helpers context resource_ids)) ->
  field_path <> [] ->
  exists per_resource,
    fields result !! String.concat "." field_path = Some per_resource /\
    is_Some (per_resource !! resource_id).
Proof.
  unfold datastore_field_autocomplete.
  destruct (get_available_datastore_resources helpers context resource_ids)
    as [|first others]; [done|].
  destruct (scan_mappings _ _ _ _ _) as [found|e] eqn:Hscan; [|done].
  intros [= <-] Hin Hpath. simpl.
  apply (scan_mappings_found _ _ _ []) in Hscan.
  2: { unfold found_from. split_and!; try (intros *; by rewrite lookup_empty).
       by intros ? ? ? ?%elem_of_nil. }
  destruct Hscan as (_ & _ & Hcomplete).
  apply (Hcomplete _ _ _ Hin). by apply empty_text_matches.
Qed.

Lemma scan_fields_no_match text lowercase resource_id data_fields fields :
  (forall field_path, path_matches text lowercase field_path = false) ->
  scan_fields text lowercase resource_id data_fields fields = Ok fields.
Proof.
  intros Hnone. induction data_fields as [|[field_path config] rest IH]; [done|].
  simpl. by rewrite Hnone.
Qed.

(** With [lowercase] set, the names are put in lower case but the text is
    not: a text with a capital letter finds no field at all, whatever the
    mappings hold (and however malformed their configs are). *)
Theorem autocomplete_lowercase_capital_text_finds_nothing context text
    resource_ids :
  has_upper text = true ->
  get_available_datastore_resources helpers context resource_ids <> [] ->
  datastore_field_autocomplete helpers context text resource_ids true
  = Ok (mkAutocompletion 0 ∅).
Proof.
  intros Hupper Hallowed. unfold datastore_field_autocomplete.
  destruct (get_available_datastore_resources helpers context resource_ids)
    as [|first others]; [done|].
  assert (forall mappings,
            scan_mappings helpers text true mappings ∅ = Ok ∅) as ->; [|done].
  induction mappings as [|[index mapping] rest IH]; [done|]. simpl.
  rewrite scan_fields_no_match; [done|].
  intros field_path. by apply upper_text_matches_nothing.
Qed.

(** [datastore_create_slug] answers only with the string of a slug that
    [create_slug] returned, together with its [is_new]. If creation raises
    nothing but schema errors, every failure of the action is a validation
    error; no slug at all is "Failed to generate new slug". *)
Theorem create_slug_answers_or_validation_error context query query_version
    version resource_ids resource_ids_and_versions pretty_slug :
  let created :=
    create_slug helpers context (default (JObj ∅) query)
      (default (get_latest_query_version helpers) query_version) version
      resource_ids resource_ids_and_versions pretty_slug in
  let run :=
    datastore_create_slug helpers context query query_version version
      resource_ids resource_ids_and_versions pretty_slug in
  (forall response,
     run = Ok response <->
     exists found,
       created = Ok (is_new response, Some found) /\
       slug response = get_slug_string helpers found) /\
  (forall is_new, created = Ok (is_new, None) ->
     run = Raise (ValidationError "Failed to generate new slug")) /\
  ((forall e, created = Raise e ->
      exists message,
        e = JsonSchemaValidationError message \/
        e = InvalidQuerySchemaVersionError message) ->
   forall e, run = Raise e -> Multisearch.user_correctable e = true).
Proof.
  intros created run. subst run. unfold datastore_create_slug. fold created.
  split_and!.
  - intros [response_slug response_new]. simpl.
    destruct created as [[is_new [found|]]|e]; simpl.
    + split.
      * intros [= <- <-]. by exists found.
      * intros (found' & [= <- <-] & ->). done.
    + split; [done|]. by intros (found' & ? & _).
    + split; [by destruct e|]. by intros (found' & ? & _).
  - by intros is_new ->.
  - intros Hschema e.
    destruct created as [[is_new [found|]]|e0]; simpl; [done|by intros [= <-]|].
    destruct (Hschema e0 eq_refl) as [message [-> | ->]]; by intros [= <-].
Qed.

(** [datastore_hash_query] hashes a query only after the schema accepted
    it: any hash returned is the hash of a valid query, and a query the
    schema refuses gives a validation error with the schema's message. *)
Theorem hash_query_only_of_valid_queries query query_version :
  let q := default (JObj ∅) query in
  let v := default (get_latest_query_version helpers) query_version in
  (forall digest,
     datastore_hash_query helpers query query_version = Ok digest ->
     validate_query helpers q v = Ok tt /\ digest = hash_query helpers q v) /\
  (forall message,
     validate_query helpers q v = Raise (JsonSchemaValidationError message) \/
     validate_query helpers q v = Raise (InvalidQuerySchemaVersionError message) ->
     datastore_hash_query helpers query query_version
     = Raise (ValidationError message)).
Proof.
  intros q v. unfold datastore_hash_query. fold q v. split.
  - intros digest. destruct (validate_query helpers q v) as [[]|e]; simpl.
    + by intros [= <-].
    + by destruct e.
  - by intros message [-> | ->].
Qed.

End WithHelpers.

(** *** Worked instances *)

Import Specimens.

(** In lower case, "count" is part of [location.Country] (of [r1]) and of
    no other field name. *)
Lemma autocomplete_lists_the_matching_fields_witness :
  exists result,
    datastore_field_autocomplete helpers tt "count" None true = Ok result /\
    count result = size (fields result) /\
    is_Some (fields result !! "location.Country") /\
    ~ is_Some (fields result !! "Genus").
Proof.
  assert (exists result,
            datastore_field_autocomplete helpers tt "count" None true = Ok result)
    as [result Hrun] by (eexists; vm_compute; reflexivity).
  exists result.
  destruct (autocomplete_lists_the_matching_fields unit string helpers tt "count"
              None true result Hrun) as (Hcount & Hnames & _).
  { intros _. apply (bool_decide_unpack _). vm_compute. exact I. }
  split_and!; [done..| |].
  - apply Hnames. exists "r1", ["location"; "Country"], keyword.
    split_and!; [|reflexivity..]. vm_compute.
    apply list_elem_of_further. apply list_elem_of_here.
  - intros (resource_id & field_path & config & Hin & Hmatch & Hname)%Hnames.
    vm_compute in Hin.
    repeat (apply elem_of_cons in Hin as [Hin|Hin];
            [injection Hin as -> -> ->; discriminate|]).
    by apply elem_of_nil in Hin.
Defined.

Lemma autocomplete_empty_text_lists_all_witness :
  exists result per_resource,
    datastore_field_autocomplete helpers tt "" None true = Ok result /\
    fields result !! "location.Country" = Some per_resource /\
    is_Some (per_resource !! "r1").
Proof.
  assert (exists result,
            datastore_field_autocomplete helpers tt "" None true = Ok result)
    as [result Hrun] by (eexists; vm_compute; reflexivity).
  destruct (autocomplete_empty_text_lists_all unit string helpers tt None true
              result "r1" ["location"; "Country"] keyword Hrun)
    as (per_resource & Hper & Hr1).
  - vm_compute. apply list_elem_of_further, list_elem_of_here.
  - discriminate.
  - by exists result, per_resource.
Defined.

Lemma autocomplete_lowercase_capital_text_finds_nothing_witness :
  datastore_field_autocomplete helpers tt "Genus" None true
  = Ok (mkAutocompletion 0 ∅).
Proof.
  apply (autocomplete_lowercase_capital_text_finds_nothing unit string helpers tt
           "Genus" None); [reflexivity|discriminate].
Defined.

Lemma create_slug_answers_or_validation_error_witness :
  datastore_create_slug helpers tt None None None None None true
  = Ok (mkSlugResponse "calm-grey-heron" true).
Proof.
  apply (proj1 (create_slug_answers_or_validation_error unit string helpers tt None
                  None None None None true)).
  exists "calm-grey-heron". split; reflexivity.
Defined.

Lemma hash_query_only_of_valid_queries_witness :
  validate_query helpers (JObj ∅) "v1.0.0" = Ok tt /\
  "digest-v1.0.0" = hash_query helpers (JObj ∅) "v1.0.0".
Proof.
  apply (proj1 (hash_query_only_of_valid_queries unit string helpers None None)).
  reflexivity.
Defined.

End OtherActionsFacts.
